(** * The verification-request pipeline

    A shallow embedding of the phone verification endpoint
    ([src/route.ts]), of the record store ([src/database.ts]) and of the
    client of the external validation service ([src/abstract-api.ts]),
    and of the handler of the page that calls the endpoint
    ([src/page.tsx]), followed by the properties the specification
    states about them.

    Conventions of the embedding.
    - A JavaScript string is the list of its UTF-16 code units
      ([jsstring]); [js] turns a literal into such a list.
    - A JavaScript number is an exact integer ([Z]) or rational ([Q]);
      the program does no arithmetic on fractions, it only stores and
      compares the decimal constants it is given.
    - What the program awaits from its surroundings (the answer of a
      [fetch], the draw of [Math.random]) is read from an environment
      [env]; the clock is part of the [world] and advances while the
      program awaits a [fetch] or a timer, and not otherwise.
    - A thrown exception is the [Thrown] case of an [outcome].
    - The table keeps its timestamps as texts of UTC without a zone; the
      route reads them back in the time zone of the server, which is part
      of the environment ([local_time]). *)

From Stdlib Require Import ZArith QArith String Ascii List Lia.
From Stdlib Require Import DecimalString Sorted.
From stdpp Require Import gmap list.

Import ListNotations.
Local Open Scope Z_scope.

(** ** JavaScript values *)

Module Js.

(** A string as its UTF-16 code units. *)
Definition jsstring := list N.

Definition js (s : string) : jsstring :=
  map N_of_ascii (list_ascii_of_string s).

(** [String(n)] for an integer [n]. *)
Definition decimal (z : Z) : jsstring :=
  js (NilEmpty.string_of_int (Z.to_int z)).

Definition jsstring_eqb (a b : jsstring) : bool :=
  bool_decide (a = b).

(** [s.startsWith(p)] *)
Fixpoint startsWith (p s : jsstring) : bool :=
  match p, s with
  | [], _ => true
  | _ :: _, [] => false
  | a :: p', b :: s' => N.eqb a b && startsWith p' s'
  end.

(** [s.includes(p)] *)
Fixpoint includes (p s : jsstring) : bool :=
  startsWith p s ||
  match s with
  | [] => false
  | _ :: s' => includes p s'
  end.

(** [s.substring(from, to)] for [0 <= from <= to]. *)
Definition substring (from to : nat) (s : jsstring) : jsstring :=
  firstn (to - from) (skipn from s).

(** [s.toUpperCase()] on the letters a-z; the program applies it to the
    output of [Number.prototype.toString(36)] only, which holds no other
    letters. *)
Definition upper_unit (c : N) : N :=
  if (97 <=? c)%N && (c <=? 122)%N then (c - 32)%N else c.

Definition toUpperCase (s : jsstring) : jsstring := map upper_unit s.

(** The values [JSON.parse] can produce. *)
#[warnings="-register-all"]
Inductive json : Type :=
| JNull
| JBool (b : bool)
| JNum (q : Q)
| JStr (s : jsstring)
| JArr (items : list json)
| JObj (fields : list (string * json)).

(** A thrown [Error]: its [name] and its [message]. *)
Record jserror : Type := mkError { name : jsstring; message : jsstring }.

Definition Error (msg : jsstring) : jserror :=
  {| name := js "Error"; message := msg |}.
Definition TypeError (msg : jsstring) : jserror :=
  {| name := js "TypeError"; message := msg |}.
Definition SyntaxError (msg : jsstring) : jserror :=
  {| name := js "SyntaxError"; message := msg |}.
Definition AbortError : jserror :=
  {| name := js "AbortError"; message := js "This operation was aborted" |}.

(** How an evaluation ends: with a value, or with a thrown error. *)
Inductive outcome (A : Type) : Type :=
| Returned (a : A)
| Thrown (e : jserror).
Arguments Returned {A} a.
Arguments Thrown {A} e.

(** Truthiness of a value; [None] is [undefined]. *)
Definition truthy (v : option json) : bool :=
  match v with
  | None => false
  | Some JNull => false
  | Some (JBool b) => b
  | Some (JNum q) => negb (Qnum q =? 0)
  | Some (JStr s) => match s with [] => false | _ => true end
  | Some (JArr _) => true
  | Some (JObj _) => true
  end.

Fixpoint assoc (k : string) (fields : list (string * json)) : option json :=
  match fields with
  | [] => None
  | (k', v) :: rest => if String.eqb k k' then Some v else assoc k rest
  end.

(** [v.k]: reading a property of [null] throws a [TypeError]; a
    primitive or an array has none of the properties the program reads;
    when a key occurs twice in an object [JSON.parse] keeps the last. *)
Definition prop (v : json) (k : string) : outcome (option json) :=
  match v with
  | JNull => Thrown (TypeError (js "Cannot read properties of null"))
  | JObj fields => Returned (assoc k (rev fields))
  | _ => Returned None
  end.

(** [v === 'lit'] *)
Definition is_string (lit : string) (v : option json) : bool :=
  match v with
  | Some (JStr s) => jsstring_eqb s (js lit)
  | _ => false
  end.

End Js.
Import Js.

(** ** The table [verification_requests] ([getDatabase]) *)

Module Kind.
Inductive t : Type := email | phone.

Definition eqb (a b : t) : bool :=
  match a, b with
  | email, email | phone, phone => true
  | _, _ => false
  end.
End Kind.

Inductive Status : Type := pending | verified | failed.
Inductive Risk : Type := low | medium | high.

(** A date-time of the table: the text [YYYY-MM-DD HH:MM:SS] that
    SQLite writes, in UTC and without a zone, given by the instant it
    denotes in UTC, in milliseconds since the epoch.  [CURRENT_TIMESTAMP]
    has a resolution of one second. *)
Definition datetime := Z.

Definition CURRENT_TIMESTAMP (now : Z) : datetime := 1000 * (now / 1000).

Module Schema.
(** One row; [None] in a nullable column is SQL [NULL].  A column of
    JSON text is given by the value the text encodes. *)
Record row : Type := mkRow {
  id : Z;
  type : Kind.t;
  value : jsstring;
  status : Status;
  verification_code : option jsstring;
  created_at   : datetime;
  updated_at   : datetime;
  ip_address : option jsstring;
  user_agent : option jsstring;
  validation_data : option json;
  reputation_data : option json;
  api_response_time : option Z;
  quality_score : option Q;
  risk_level : option Risk
}.
End Schema.

(** The table with the counter of [AUTOINCREMENT]. *)
Record store : Type := mkStore {
  rows : gmap Z Schema.row;
  seq : Z
}.

(** ** The interface [VerificationRequest]

    Every field is optional here, as in [Partial<VerificationRequest>];
    [None] is [undefined]. *)
Module VerificationRequest.
Record t : Type := mk {
  id : option Z;
  type : option Kind.t;
  value : option jsstring;
  status : option Status;
  verification_code : option jsstring;
  created_at : option datetime;
  updated_at : option datetime;
  ip_address : option jsstring;
  user_agent : option jsstring;
  validation_data : option json;
  reputation_data : option json;
  api_response_time : option Z;
  quality_score : option Q;
  risk_level : option Risk
}.

Definition empty : t :=
  mk None None None None None None None None None None None None None None.
End VerificationRequest.

(** ** The surroundings of the program *)

(** What a [fetch] meets. *)
Inductive fetch_outcome : Type :=
| NetworkFailure (msg : jsstring)
    (** the promise is rejected with a [TypeError] *)
| Response (status : Z) (text : jsstring) (parsed : option json)
    (** a response arrives: its status, its body as [response.text()]
        gives it and as [response.json()] gives it ([None]: the body is
        not JSON, and [response.json()] throws a [SyntaxError]) *).

(** An exchange with the service: how long it takes and how it ends. *)
Record exchange : Type := mkExchange {
  elapsed : Z;
  result : fetch_outcome
}.

Record env : Type := mkEnv {
  ABSTRACT_EMAIL_API_KEY : option jsstring;
  ABSTRACT_PHONE_API_KEY : option jsstring;
  (** the [n]-th exchange with the service, counted from 0 *)
  net : nat -> exchange;
  (** [Math.random().toString(36)] at the [n]-th draw, counted from 0 *)
  random36 : nat -> jsstring;
  (** the time zone of the server: [new Date(text).getTime()] for the
      text without a zone of the date and time [t], which is read as
      local time; the instant at which the clocks of the zone show [t].
      In a zone of UTC it is [t] itself; in a zone 5 hours ahead of UTC
      it is 5 hours before [t]. *)
  local_time : datetime -> Z
}.

(** What the program does to its surroundings, in order. *)
Inductive event : Type :=
| EFetch
| ESleep (ms : Z)
| ERandom
| EInsert (id : Z)
| EUpdate (id : Z).

Record world : Type := mkWorld {
  db : store;
  now : Z;
  log : list event
}.

Definition is_fetch (e : event) : bool :=
  match e with EFetch => true | _ => false end.
Definition is_random (e : event) : bool :=
  match e with ERandom => true | _ => false end.

(** The number of external calls made so far. *)
Definition fetches (w : world) : nat := length (List.filter is_fetch (log w)).
Definition draws (w : world) : nat := length (List.filter is_random (log w)).

(** The waits so far, in order. *)
Fixpoint sleeps_of (l : list event) : list Z :=
  match l with
  | [] => []
  | ESleep d :: l' => d :: sleeps_of l'
  | _ :: l' => sleeps_of l'
  end.
Definition sleeps (w : world) : list Z := sleeps_of (log w).

(** ** Asynchronous code: a state and exception monad *)

Definition M (A : Type) : Type := world -> outcome A * world.

Definition ret {A} (a : A) : M A := fun w => (Returned a, w).
Definition throw {A} (e : jserror) : M A := fun w => (Thrown e, w).

Definition bind {A B} (m : M A) (k : A -> M B) : M B :=
  fun w =>
    match m w with
    | (Returned a, w') => k a w'
    | (Thrown e, w') => (Thrown e, w')
    end.

(** [try { m } catch (error) { h error }] *)
Definition try_catch {A} (m : M A) (h : jserror -> M A) : M A :=
  fun w =>
    match m w with
    | (Returned a, w') => (Returned a, w')
    | (Thrown e, w') => h e w'
    end.

Definition lift {A} (o : outcome A) : M A := fun w => (o, w).

Definition emit (e : event) : M unit :=
  fun w => (Returned tt, {| db := db w; now := now w; log := log w ++ [e] |}).

Definition advance (ms : Z) : M unit :=
  fun w => (Returned tt, {| db := db w; now := now w + ms; log := log w |}).

Definition Date_now : M Z := fun w => (Returned (now w), w).

Definition get_db : M store := fun w => (Returned (db w), w).
Definition set_db (s : store) : M unit :=
  fun w => (Returned tt, {| db := s; now := now w; log := log w |}).

Declare Scope js_scope.
Delimit Scope js_scope with js.
Notation "'let*' x ':=' m 'in' k" := (bind m (fun x => k))
  (at level 100, x pattern, m at next level, k at level 200,
   right associativity) : js_scope.
Notation "m ';;' k" := (bind m (fun _ => k))
  (at level 100, k at level 200, right associativity) : js_scope.
Local Open Scope js_scope.

(** [a || b] on an optional string: the empty string is falsy too. *)
Definition or_string (a : option jsstring) (b : jsstring) : jsstring :=
  match a with
  | Some (c :: s) => c :: s
  | _ => b
  end.

(** [x || null] on a number: 0 is falsy. *)
Definition or_null_Z (x : option Z) : option Z :=
  match x with
  | Some z => if z =? 0 then None else Some z
  | None => None
  end.

Definition or_null_Q (x : option Q) : option Q :=
  match x with
  | Some q => if Qnum q =? 0 then None else Some q
  | None => None
  end.

(** [x ? JSON.stringify(x) : null] *)
Definition stringify_or_null (x : option json) : option json :=
  if truthy x then x else None.

(** ** [src/database.ts] *)

Definition of_row (r : Schema.row) : VerificationRequest.t :=
  {| VerificationRequest.id := Some (Schema.id r);
     VerificationRequest.type := Some (Schema.type r);
     VerificationRequest.value := Some (Schema.value r);
     VerificationRequest.status := Some (Schema.status r);
     VerificationRequest.verification_code := Schema.verification_code r;
     VerificationRequest.created_at := Some (Schema.created_at r);
     VerificationRequest.updated_at := Some (Schema.updated_at r);
     VerificationRequest.ip_address := Schema.ip_address r;
     VerificationRequest.user_agent := Schema.user_agent r;
     VerificationRequest.validation_data := Schema.validation_data r;
     VerificationRequest.reputation_data := Schema.reputation_data r;
     VerificationRequest.api_response_time := Schema.api_response_time r;
     VerificationRequest.quality_score := Schema.quality_score r;
     VerificationRequest.risk_level := Schema.risk_level r |}.

(** [ORDER BY created_at DESC]; SQL leaves the order of rows of equal
    [created_at] open, here the later one in the scan comes first. *)
Fixpoint insert_desc (r : Schema.row) (l : list Schema.row) : list Schema.row :=
  match l with
  | [] => [r]
  | x :: l' =>
      if Schema.created_at x <=? Schema.created_at r then r :: l
      else x :: insert_desc r l'
  end.

Definition order_by_created_at_desc (l : list Schema.row) : list Schema.row :=
  fold_right insert_desc [] l.

(** [SELECT * FROM verification_requests WHERE type = ? AND value = ?
     ORDER BY created_at DESC] *)
Definition select_by_value (s : store) (type : Kind.t) (value : jsstring)
  : list Schema.row :=
  order_by_created_at_desc
    (List.filter
       (fun r => Kind.eqb (Schema.type r) type
                 && jsstring_eqb (Schema.value r) value)
       (map snd (map_to_list (rows s)))).

(** The assignments of an [UPDATE ... SET], the arrays [fields] and
    [values] of [updateVerificationRequest]. *)
Inductive assignment : Type :=
| SetStatus (v : Status)
| SetValidationData (v : json)
| SetReputationData (v : json)
| SetApiResponseTime (v : Z)
| SetQualityScore (v : Q)
| SetRiskLevel (v : Risk)
| SetUpdatedAt.

Definition assign (now : Z) (a : assignment) (r : Schema.row) : Schema.row :=
  let '(Schema.mkRow i ty va st co ca ua ip ag vd rd rt qs rl) := r in
  match a with
  | SetStatus v => Schema.mkRow i ty va v co ca ua ip ag vd rd rt qs rl
  | SetValidationData v =>
      Schema.mkRow i ty va st co ca ua ip ag (Some v) rd rt qs rl
  | SetReputationData v =>
      Schema.mkRow i ty va st co ca ua ip ag vd (Some v) rt qs rl
  | SetApiResponseTime v =>
      Schema.mkRow i ty va st co ca ua ip ag vd rd (Some v) qs rl
  | SetQualityScore v =>
      Schema.mkRow i ty va st co ca ua ip ag vd rd rt (Some v) rl
  | SetRiskLevel v =>
      Schema.mkRow i ty va st co ca ua ip ag vd rd rt qs (Some v)
  | SetUpdatedAt =>
      Schema.mkRow i ty va st co ca (CURRENT_TIMESTAMP now) ip ag vd rd rt qs rl
  end.

(** [UPDATE verification_requests SET fields WHERE id = ?] *)
Definition sql_update (now : Z) (fields : list assignment) (id : Z) (s : store)
  : store :=
  {| rows := alter (fun r => fold_left (fun r a => assign now a r) fields r)
                   id (rows s);
     seq := seq s |}.

(** [fields.push(..)] under [if (x !== undefined)] *)
Definition push_if {A} (x : option A) (f : A -> assignment)
  (fields : list assignment) : list assignment :=
  match x with
  | Some v => fields ++ [f v]
  | None => fields
  end.

Definition update_fields (updates : VerificationRequest.t) : list assignment :=
  let fields := [] in
  let fields := push_if (VerificationRequest.status updates) SetStatus fields in
  let fields :=
    push_if (VerificationRequest.validation_data updates) SetValidationData fields in
  let fields :=
    push_if (VerificationRequest.reputation_data updates) SetReputationData fields in
  let fields :=
    push_if (VerificationRequest.api_response_time updates) SetApiResponseTime fields in
  let fields :=
    push_if (VerificationRequest.quality_score updates) SetQualityScore fields in
  let fields := push_if (VerificationRequest.risk_level updates) SetRiskLevel fields in
  fields.

Definition updateVerificationRequest (id : Z) (updates : VerificationRequest.t)
  : M unit :=
  let fields := update_fields updates in
  if (0 <? Z.of_nat (length fields)) then
    let fields := fields ++ [SetUpdatedAt] in
    let* s := get_db in
    let* t := Date_now in
    set_db (sql_update t fields id s) ;;
    emit (EUpdate id)
  else ret tt.

Definition getVerificationRequestsByValue (type : Kind.t) (value : jsstring)
  : M (list VerificationRequest.t) :=
  let* s := get_db in
  ret (map of_row (select_by_value s type value)).

(** [UPDATE verification_requests SET status = ?, updated_at =
    CURRENT_TIMESTAMP WHERE id = ?] *)
Definition updateVerificationStatus (id : Z) (status : Status) : M unit :=
  let* s := get_db in
  let* t := Date_now in
  set_db (sql_update t [SetStatus status; SetUpdatedAt] id s) ;;
  emit (EUpdate id).

(** [SELECT * FROM verification_requests WHERE id = ?]; [None] is the
    [null] returned when there is no row. *)
Definition getVerificationRequest (id : Z) : M (option VerificationRequest.t) :=
  let* s := get_db in
  match rows s !! id with
  | None => ret None
  | Some row => ret (Some (of_row row))
  end.

(** The object [getVerificationStats] returns; [None] in the
    distribution is the [null] of an SQL [SUM] over no row. *)
Module Stats.
Record distribution : Type := mkDistribution {
  low : option Z;
  medium : option Z;
  high : option Z
}.

Record t : Type := mk {
  total_requests : Z;
  successful_requests : Z;
  failed_requests : Z;
  average_response_time : Q;
  average_quality_score : Q;
  risk_distribution : distribution
}.
End Stats.

(** [FROM verification_requests] *)
Definition all_rows (s : store) : list Schema.row :=
  map snd (map_to_list (rows s)).

(** [SELECT COUNT( * ) ... WHERE p] *)
Definition sql_count (p : Schema.row -> bool) (s : store) : Z :=
  Z.of_nat (length (List.filter p (all_rows s))).

(** [AVG] over the values that are not NULL: NULL when there is none. *)
Definition sql_avg (xs : list Q) : option Q :=
  match xs with
  | [] => None
  | _ :: _ =>
      Some (fold_right Qplus 0%Q xs / inject_Z (Z.of_nat (length xs)))%Q
  end.

(** [SUM] over the selected rows: NULL when there is none. *)
Definition sql_sum (xs : list Z) : option Z :=
  match xs with
  | [] => None
  | _ :: _ => Some (fold_right Z.add 0 xs)
  end.

(** [x || 0] on the result of an [AVG] *)
Definition or_zero (x : option Q) : Q :=
  match x with
  | Some q => if Qnum q =? 0 then 0%Q else q
  | None => 0%Q
  end.

Definition has_status (st : Status) (r : Schema.row) : bool :=
  match Schema.status r, st with
  | pending, pending | verified, verified | failed, failed => true
  | _, _ => false
  end.

(** [CASE WHEN risk_level = level THEN 1 ELSE 0 END] *)
Definition case_risk (level : Risk) (r : Risk) : Z :=
  match r, level with
  | low, low | medium, medium | high, high => 1
  | _, _ => 0
  end.

(** The values of a column that are not NULL. *)
Definition not_null {A} (column : Schema.row -> option A) (s : store) : list A :=
  omap column (all_rows s).

Definition getVerificationStats : M Stats.t :=
  let* s := get_db in
  let total := sql_count (fun _ => true) s in
  let successful := sql_count (has_status verified) s in
  let failed := sql_count (has_status failed) s in
  let avgResponseTime :=
    sql_avg (map inject_Z (not_null Schema.api_response_time s)) in
  let avgQualityScore := sql_avg (not_null Schema.quality_score s) in
  (* one row of aggregates over the rows whose risk_level is not NULL;
     the row is an object, so the fallback after [||] is never taken *)
  let levels := not_null Schema.risk_level s in
  let riskDistribution :=
    {| Stats.low := sql_sum (map (case_risk low) levels);
       Stats.medium := sql_sum (map (case_risk medium) levels);
       Stats.high := sql_sum (map (case_risk high) levels) |} in
  ret {| Stats.total_requests := total;
         Stats.successful_requests := successful;
         Stats.failed_requests := failed;
         Stats.average_response_time := or_zero avgResponseTime;
         Stats.average_quality_score := or_zero avgQualityScore;
         Stats.risk_distribution := riskDistribution |}.

(** ** [src/route.ts]: requests, answers and the pure parts *)

Module Next.

(** The request: its body as [request.json()] gives it ([None]: the body
    is not JSON) and the two headers the route reads ([None]:
    [headers.get] gives [null]). *)
Record NextRequest : Type := mkRequest {
  body : option json;
  x_forwarded_for : option jsstring;
  user_agent : option jsstring
}.

(** The object of a successful answer. *)
Record success : Type := mkSuccess {
  message : jsstring;
  requestId : option Z;
  verificationCode : option jsstring;
  validation : json;
  qualityScore : Q;
  riskLevel : Risk;
  responseTime : Z;
  timestamp : datetime
}.

Inductive payload : Type :=
| error (msg : jsstring)
| success_true (s : success).

(** [NextResponse.json(payload, { status })]; the status is 200 when
    none is given. *)
Record NextResponse : Type := mkNextResponse {
  json_body : payload;
  http_status : Z
}.

End Next.

(** The character classes of
    [/^[\+]?[\d\s\-\(\)]{10,}$/]. *)
Definition is_digit (c : N) : bool := ((48 <=? c) && (c <=? 57))%N.

(** [\s]: the white space and line terminators of ECMAScript. *)
Definition is_space (c : N) : bool :=
  (((9 <=? c) && (c <=? 13)) || (c =? 32) || (c =? 160) || (c =? 5760)
   || ((8192 <=? c) && (c <=? 8202)) || (c =? 8232) || (c =? 8233)
   || (c =? 8239) || (c =? 8287) || (c =? 12288) || (c =? 65279))%N.

Definition in_class (c : N) : bool :=
  (is_digit c || is_space c || (c =? 45) || (c =? 40) || (c =? 41))%N.

(** [[\d\s\-\(\)]{10,}$] from the start of [s] *)
Definition class_10_to_end (s : jsstring) : bool :=
  forallb in_class s && (10 <=? length s)%nat.

(** [phoneRegex.test(phone)]: the leading [+] is taken or is not. *)
Definition phoneRegex_test (phone : jsstring) : bool :=
  match phone with
  | 43%N :: rest => class_10_to_end rest || class_10_to_end phone
  | _ => class_10_to_end phone
  end.

(** Lines 53 to 68 of [POST]: the quality score and the risk level. *)
Definition scoring (validationData : json) : outcome (Q * Risk) :=
  let qualityScore := (8 # 10)%Q in
  let riskLevel := low in
  match prop validationData "valid" with
  | Thrown e => Thrown e
  | Returned valid =>
      if negb (truthy valid) then
        Returned ((1 # 10)%Q, high)
      else
        match prop validationData "type" with
        | Thrown e => Thrown e
        | Returned type =>
            if is_string "Mobile" type then
              Returned ((9 # 10)%Q, riskLevel)
            else if is_string "Landline" type then
              Returned ((7 # 10)%Q, riskLevel)
            else if is_string "Toll_Free" type || is_string "Unknown" type then
              Returned ((5 # 10)%Q, medium)
            else
              Returned (qualityScore, riskLevel)
        end
  end.

(** [new Date(attempt.created_at!).getTime() > Date.now() - 5 * 60 * 1000];
    the text of [created_at], written in UTC, has no zone and is read as
    local time ([local_time]); an attempt without it ([undefined]) is not
    recent ([NaN > x] is false). *)
Definition recent (E : env) (now : Z) (attempt : VerificationRequest.t) : bool :=
  match VerificationRequest.created_at attempt with
  | Some t => now - 5 * 60 * 1000 <? local_time E t
  | None => false
  end.

(** How the body of a loop ends when it does not throw: [return data],
    or on to the next round ([continue], or the end of the body). *)
Inductive step (A : Type) : Type :=
| Return (a : A)
| Continue.
Arguments Return {A} a.
Arguments Continue {A}.

(** The object [POST] passes to [createVerificationRequest]. *)
Definition new_request (request : Next.NextRequest) (phone : jsstring)
  (validationData : json) (valid : option json) (qualityScore : Q)
  (riskLevel : Risk) : VerificationRequest.t :=
  {| VerificationRequest.id := None;
     VerificationRequest.type := Some Kind.phone;
     VerificationRequest.value := Some phone;
     VerificationRequest.status :=
       Some (if truthy valid then verified else failed);
     VerificationRequest.verification_code := None;
     VerificationRequest.created_at := None;
     VerificationRequest.updated_at := None;
     VerificationRequest.ip_address :=
       Some (or_string (Next.x_forwarded_for request) (js "unknown"));
     VerificationRequest.user_agent :=
       Some (or_string (Next.user_agent request) (js "unknown"));
     VerificationRequest.validation_data := Some validationData;
     VerificationRequest.reputation_data := None;
     VerificationRequest.api_response_time := Some 0;
     VerificationRequest.quality_score := Some qualityScore;
     VerificationRequest.risk_level := Some riskLevel |}.

(** The object [POST] passes to [updateVerificationRequest]:
    [{ api_response_time: responseTime }]. *)
Definition response_time (responseTime : Z) : VerificationRequest.t :=
  {| VerificationRequest.id := None;
     VerificationRequest.type := None;
     VerificationRequest.value := None;
     VerificationRequest.status := None;
     VerificationRequest.verification_code := None;
     VerificationRequest.created_at := None;
     VerificationRequest.updated_at := None;
     VerificationRequest.ip_address := None;
     VerificationRequest.user_agent := None;
     VerificationRequest.validation_data := None;
     VerificationRequest.reputation_data := None;
     VerificationRequest.api_response_time := Some responseTime;
     VerificationRequest.quality_score := None;
     VerificationRequest.risk_level := None |}.

Section Program.

Context (E : env).

(** [Math.random().toString(36)] *)
Definition Math_random_toString36 : M jsstring :=
  fun w => (emit ERandom ;; ret (random36 E (draws w))) w.

(** [INSERT INTO verification_requests (...) VALUES (...)], giving
    [lastID].  [type] and [value] are [NOT NULL]; [created_at] and
    [updated_at] take their default. *)
Definition sql_insert (type : option Kind.t) (value : option jsstring)
  (status : Status) (verification_code : jsstring)
  (ip_address user_agent : option jsstring)
  (validation_data reputation_data : option json)
  (api_response_time : option Z) (quality_score : option Q)
  (risk_level : option Risk) : M Z :=
  match type, value with
  | Some ty, Some va =>
      let* s := get_db in
      let* t := Date_now in
      let lastID := seq s + 1 in
      set_db {| rows :=
                  <[lastID :=
                      {| Schema.id := lastID;
                         Schema.type := ty;
                         Schema.value := va;
                         Schema.status := status;
                         Schema.verification_code := Some verification_code;
                         Schema.created_at := CURRENT_TIMESTAMP t;
                         Schema.updated_at := CURRENT_TIMESTAMP t;
                         Schema.ip_address := ip_address;
                         Schema.user_agent := user_agent;
                         Schema.validation_data := validation_data;
                         Schema.reputation_data := reputation_data;
                         Schema.api_response_time := api_response_time;
                         Schema.quality_score := quality_score;
                         Schema.risk_level := risk_level |}]> (rows s);
                seq := lastID |} ;;
      emit (EInsert lastID) ;;
      ret lastID
  | _, _ => throw (Error (js "SQLITE_CONSTRAINT: NOT NULL constraint failed"))
  end.

Definition createVerificationRequest (request : VerificationRequest.t)
  : M VerificationRequest.t :=
  let* r36 := Math_random_toString36 in
  let verificationCode := toUpperCase (substring 2 8 r36) in
  let status := default pending (VerificationRequest.status request) in
  let* lastID :=
    sql_insert
      (VerificationRequest.type request)
      (VerificationRequest.value request)
      status
      verificationCode
      (VerificationRequest.ip_address request)
      (VerificationRequest.user_agent request)
      (stringify_or_null (VerificationRequest.validation_data request))
      (stringify_or_null (VerificationRequest.reputation_data request))
      (or_null_Z (VerificationRequest.api_response_time request))
      (or_null_Q (VerificationRequest.quality_score request))
      (VerificationRequest.risk_level request) in
  let* t := Date_now in
  (* { id: result.lastID, ...request, status, verification_code,
       created_at, updated_at } *)
  ret {| VerificationRequest.id :=
           Some (default lastID (VerificationRequest.id request));
         VerificationRequest.type := VerificationRequest.type request;
         VerificationRequest.value := VerificationRequest.value request;
         VerificationRequest.status := Some status;
         VerificationRequest.verification_code := Some verificationCode;
         VerificationRequest.created_at := Some t;
         VerificationRequest.updated_at := Some t;
         VerificationRequest.ip_address := VerificationRequest.ip_address request;
         VerificationRequest.user_agent := VerificationRequest.user_agent request;
         VerificationRequest.validation_data :=
           VerificationRequest.validation_data request;
         VerificationRequest.reputation_data :=
           VerificationRequest.reputation_data request;
         VerificationRequest.api_response_time :=
           VerificationRequest.api_response_time request;
         VerificationRequest.quality_score :=
           VerificationRequest.quality_score request;
         VerificationRequest.risk_level :=
           VerificationRequest.risk_level request |}.

(** ** [src/abstract-api.ts] *)

Record response : Type := mkResponse {
  status : Z;
  text : jsstring;
  parsed : option json
}.

Definition ok (r : response) : bool := (200 <=? status r) && (status r <=? 299).

Definition maxRetries : Z := 3.
Definition timeout : Z := 10000.

(** [fetch(url, { signal })] under the timer that aborts it after
    [timeout] milliseconds. *)
Definition fetch : M response :=
  fun w =>
    let x := net E (fetches w) in
    (emit EFetch ;;
     if timeout <=? elapsed x then
       advance timeout ;; throw AbortError
     else
       advance (elapsed x) ;;
       match result x with
       | NetworkFailure msg => throw (TypeError msg)
       | Response st tx pa => ret {| status := st; text := tx; parsed := pa |}
       end) w.

(** [response.json()]; the message of the [SyntaxError] is not
    modelled, it is taken not to hold the word [fetch]. *)
Definition response_json (r : response) : M json :=
  match parsed r with
  | Some data => ret data
  | None => throw (SyntaxError (js "Unexpected token in JSON"))
  end.

(** [await new Promise(resolve => setTimeout(resolve, delay))] *)
Definition sleep (delay : Z) : M unit :=
  emit (ESleep delay) ;; advance delay.

(** [Math.min(1000 * Math.pow(2, attempt - 1), 5000)] *)
Definition backoff (attempt : Z) : Z :=
  Z.min (1000 * 2 ^ (attempt - 1)) 5000.

(** [for (let attempt = from; attempt <= to; attempt++)]: the values
    [attempt] takes. *)
Definition attempts (from to : Z) : list Z :=
  map (fun i => from + Z.of_nat i) (List.seq 0 (Z.to_nat (to - from + 1))).

(** [for (attempt of rounds) { body }; after] *)
Fixpoint for_each {A} (rounds : list Z) (body : Z -> M (step A)) (after : M A)
  : M A :=
  match rounds with
  | [] => after
  | attempt :: rest =>
      let* r := body attempt in
      match r with
      | Return a => ret a
      | Continue => for_each rest body after
      end
  end.

Definition named (n : string) (error : jserror) : bool :=
  jsstring_eqb (name error) (js n).

(** One round of the loop of [validatePhone]: its [try] and its
    [catch]. *)
Definition validatePhone_round (phone : jsstring) (attempt : Z) : M (step json) :=
  try_catch
    (let* response := fetch in
     if negb (ok response) then
       if attempt =? maxRetries then
         throw (Error (js "HTTP error! status: " ++ decimal (status response)))
       else
         let delay := backoff attempt in
         sleep delay ;;
         ret Continue
     else
       let* data := response_json response in
       ret (Return data))
    (fun error =>
       if named "AbortError" error || named "TypeError" error then
         if attempt =? maxRetries then
           throw (Error (js "Failed to connect to phone validation service. Please check your internet connection."))
         else
           let delay := backoff attempt in
           sleep delay ;;
           ret Continue
       else if attempt =? maxRetries then
         throw (Error (js "Failed to validate phone with Abstract API"))
       else
         let delay := backoff attempt in
         sleep delay ;;
         ret Continue).

Definition validatePhone (phone : jsstring) : M json :=
  for_each (attempts 1 maxRetries)
    (validatePhone_round phone)
    (throw (Error (js "Failed to validate phone with Abstract API"))).

(** One round of the loop of [validateEmail]. *)
Definition validateEmail_round (email : jsstring) (attempt : Z) : M (step json) :=
  try_catch
    (if negb (truthy (JStr <$> ABSTRACT_EMAIL_API_KEY E)) then
       throw (Error (js "Email API key not configured"))
     else
       let* response := fetch in
       if negb (ok response) then
         let errorText := text response in
         let http_error :=
           Error (js "HTTP error! status: " ++ decimal (status response)
                  ++ js ", message: " ++ errorText) in
         (* no retry on client errors (4xx) except for rate limiting *)
         if (400 <=? status response) && (status response <? 500)
            && negb (status response =? 429) then
           throw http_error
         else if attempt =? maxRetries then
           throw http_error
         else
           let delay := backoff attempt in
           sleep delay ;;
           ret Continue
       else
         let* data := response_json response in
         let* email_address := lift (prop data "email_address") in
         let* email_deliverability := lift (prop data "email_deliverability") in
         if negb (truthy email_address) || negb (truthy email_deliverability)
         then
           if attempt =? maxRetries then
             throw (Error (js "Invalid API response structure"))
           else ret Continue
         else ret (Return data))
    (fun error =>
       if named "AbortError" error || named "TypeError" error
          || includes (js "fetch") (message error) then
         if attempt =? maxRetries then
           throw (Error (js "Failed to connect to email validation service. Please check your internet connection."))
         else
           let delay := backoff attempt in
           sleep delay ;;
           ret Continue
       else if attempt =? 1 then
         throw (Error (js "Failed to validate email with Abstract API: "
                       ++ message error))
       else if attempt =? maxRetries then
         throw (Error (js "Failed to validate email with Abstract API: "
                       ++ message error))
       else
         let delay := backoff attempt in
         sleep delay ;;
         ret Continue).

Definition validateEmail (email : jsstring) : M json :=
  for_each (attempts 1 maxRetries)
    (validateEmail_round email)
    (throw (Error (js "Failed to validate email with Abstract API"))).

(** One round of the loop of [getEmailReputation]. *)
Definition getEmailReputation_round (email : jsstring) (attempt : Z)
  : M (step json) :=
  try_catch
    (let* response := fetch in
     if negb (ok response) then
       if attempt =? maxRetries then
         throw (Error (js "HTTP error! status: " ++ decimal (status response)))
       else
         let delay := backoff attempt in
         sleep delay ;;
         ret Continue
     else
       let* data := response_json response in
       ret (Return data))
    (fun error =>
       if named "AbortError" error || named "TypeError" error then
         if attempt =? maxRetries then
           throw (Error (js "Failed to connect to email reputation service. Please check your internet connection."))
         else
           let delay := backoff attempt in
           sleep delay ;;
           ret Continue
       else if attempt =? maxRetries then
         throw (Error (js "Failed to get email reputation from Abstract API"))
       else
         let delay := backoff attempt in
         sleep delay ;;
         ret Continue).

Definition getEmailReputation (email : jsstring) : M json :=
  for_each (attempts 1 maxRetries)
    (getEmailReputation_round email)
    (throw (Error (js "Failed to get email reputation from Abstract API"))).

(** [{ validation, reputation: validation }], or the one error. *)
Definition validateEmailWithReputation (email : jsstring) : M (json * json) :=
  try_catch
    (let* validation := validateEmail email in
     ret (validation, validation))
    (fun error =>
       throw (Error (js "Failed to validate email with reputation data"))).

(** ** [src/route.ts]: the handler *)

Definition respond (p : Next.payload) (st : Z) : M Next.NextResponse :=
  ret {| Next.json_body := p; Next.http_status := st |}.

Definition POST (request : Next.NextRequest) : M Next.NextResponse :=
  let* startTime := Date_now in
  try_catch
    (let* parsed_body :=
       match Next.body request with
       | Some b => ret b
       | None => throw (SyntaxError (js "Unexpected token in JSON"))
       end in
     let* phone := lift (prop parsed_body "phone") in
     match phone with
     | Some (JStr (c :: s)) =>
         let phone := c :: s in
         if negb (phoneRegex_test phone) then
           respond (Next.error (js "Invalid phone number format")) 400
         else
           (* rate limiting *)
           let* recentAttempts := getVerificationRequestsByValue Kind.phone phone in
           let* t := Date_now in
           let recentAttempt := List.find (recent E t) recentAttempts in
           match recentAttempt with
           | Some _ =>
               respond
                 (Next.error (js "Please wait before requesting another verification"))
                 429
           | None =>
               let* validated :=
                 try_catch
                   (let* validationData := validatePhone phone in
                    ret (Some validationData))
                   (fun apiError => ret None) in
               match validated with
               | None =>
                   respond
                     (Next.error (js "Failed to validate phone with external service"))
                     502
               | Some validationData =>
                   let* (qualityScore, riskLevel) := lift (scoring validationData) in
                   let* valid := lift (prop validationData "valid") in
                   let* verificationRequest :=
                     createVerificationRequest
                       (new_request request phone validationData valid
                          qualityScore riskLevel) in
                   let* endTime := Date_now in
                   let responseTime := endTime - startTime in
                   (match VerificationRequest.id verificationRequest with
                    | Some id =>
                        updateVerificationRequest id (response_time responseTime)
                    | None => ret tt
                    end) ;;
                   let* t := Date_now in
                   respond
                     (Next.success_true
                        {| Next.message := js "Phone validation completed successfully";
                           Next.requestId := VerificationRequest.id verificationRequest;
                           Next.verificationCode :=
                             VerificationRequest.verification_code verificationRequest;
                           Next.validation := validationData;
                           Next.qualityScore := qualityScore;
                           Next.riskLevel := riskLevel;
                           Next.responseTime := responseTime;
                           Next.timestamp := t |})
                     200
               end
           end
     | _ => respond (Next.error (js "Valid phone number is required")) 400
     end)
    (fun error_ => respond (Next.error (js "Internal server error")) 500).

End Program.

(** ** [src/page.tsx]: the page that calls the route *)

Module Page.

(** What [await fetch('/api/verify/phone', ...)] brings to the page: the
    request is aborted by the timer of 15 seconds, [fetch] rejects with
    an error of its own, or an answer arrives, with its status and its
    body as [response.json()] reads it ([None]: the body is no JSON). *)
Inductive arrival : Type :=
| Aborted
| Rejected (error : jserror)
| Answered (status : Z) (body : option Next.payload).

(** What the handler passes to [setPhoneResult]: the data of the answer,
    or the object [{ success: false, message: 'Validation failed', ...,
    error: errorMessage }]. *)
Inductive PhoneResult : Type :=
| data (d : Next.payload)
| failure (errorMessage : jsstring).

End Page.

(** [response.ok] *)
Definition response_ok (status : Z) : bool :=
  (200 <=? status) && (status <=? 299).

(** [errorData.error || `HTTP error! status: ${response.status}`], where
    [errorData] is the body, or [{ error: 'Network error occurred' }]
    when the body is no JSON. *)
Definition error_text (status : Z) (body : option Next.payload) : jsstring :=
  match body with
  | None => js "Network error occurred"
  | Some (Next.error msg) =>
      match msg with
      | [] => js "HTTP error! status: " ++ decimal status
      | _ => msg
      end
  | Some (Next.success_true _) => js "HTTP error! status: " ++ decimal status
  end.

(** The [catch] block of [handlePhoneValidation]: the message shown for
    the error caught. *)
Definition errorMessage (error : jserror) : jsstring :=
  if named "AbortError" error then
    js "Request timed out. Please check your connection and try again."
  else if includes (js "Failed to fetch") (message error) then
    js "Network connection error. Please check your internet connection and try again."
  else if includes (js "NetworkError") (message error) then
    js "Network error occurred. Please try again."
  else if includes (js "HTTP error! status: 503") (message error) then
    js "Service temporarily unavailable. Please try again later."
  else if includes (js "HTTP error! status: 429") (message error) then
    js "Too many requests. Please wait before trying again."
  else
    message error.

(** [handlePhoneValidation], from what the [fetch] brings to the result
    it sets. *)
Definition handlePhoneValidation (a : Page.arrival) : Page.PhoneResult :=
  let try : outcome Next.payload :=
    match a with
    | Page.Aborted => Thrown AbortError
    | Page.Rejected error => Thrown error
    | Page.Answered status body =>
        if negb (response_ok status) then
          Thrown (Error (error_text status body))
        else
          match body with
          | Some d => Returned d
          | None => Thrown (SyntaxError (js "Unexpected token in JSON"))
          end
    end in
  match try with
  | Returned d => Page.data d
  | Thrown error => Page.failure (errorMessage error)
  end.

(** The answer of the route as it arrives at the page, [waited]
    milliseconds after the page called [fetch].  The timer of the page
    ([setTimeout(() => controller.abort(), 15000)]) aborts a request that
    has no answer after 15000 milliseconds; an answer that arrives
    before is the one the route gave: [NextResponse.json] writes the
    payload as JSON and [response.json()] reads it back.  (When both
    fall in the same millisecond their order is not determined: the
    embedding lets the timer win.) *)
Definition arrives (waited : Z) (r : Next.NextResponse) : Page.arrival :=
  if 15000 <=? waited then Page.Aborted
  else Page.Answered (Next.http_status r) (Some (Next.json_body r)).

(** * Scenarios

    Concrete surroundings and requests, on which the properties below
    are exercised. *)

(** The value of a computation that returned; [d] when it threw. *)
Definition returned {A} (d : A) (o : outcome A) : A :=
  match o with
  | Returned a => a
  | Thrown _ => d
  end.

Definition empty_store : store := {| rows := ∅; seq := 0 |}.

(** An empty table, at some instant. *)
Definition world0 : world :=
  {| db := empty_store; now := 1700000000123; log := [] |}.

(** Answers of the phone service. *)
Definition mobile : json :=
  JObj [("phone", JStr (js "15551234567"));
        ("valid", JBool true);
        ("type", JStr (js "Mobile"));
        ("carrier", JStr (js "Example Wireless"))]%string.

Definition x200 (data : json) : exchange :=
  {| elapsed := 80; result := Response 200 (js "{...}") (Some data) |}.
Definition x404 : exchange :=
  {| elapsed := 60; result := Response 404 (js "Not Found") None |}.
Definition x503 : exchange :=
  {| elapsed := 120; result := Response 503 (js "Service Unavailable") None |}.
Definition unreachable : exchange :=
  {| elapsed := 30; result := NetworkFailure (js "fetch failed") |}.

(** Surroundings in which the service answers with [xs], in this order,
    and cannot be reached afterwards, in which every draw of
    [Math.random().toString(36)] gives [r36], and in which the zone of
    the server is UTC. *)
Definition scripted (xs : list exchange) (r36 : string) : env :=
  {| ABSTRACT_EMAIL_API_KEY := Some (js "email-key");
     ABSTRACT_PHONE_API_KEY := Some (js "phone-key");
     net := fun n => nth n xs unreachable;
     random36 := fun _ => js r36;
     local_time := fun t => t |}.

(** [POST /api/verify/phone] with the body [{ phone: value }]. *)
Definition phone_request (value : jsstring) : Next.NextRequest :=
  {| Next.body := Some (JObj [("phone"%string, JStr value)]);
     Next.x_forwarded_for := Some (js "203.0.113.7");
     Next.user_agent := None |}.

(** A draw of one half, [0.i] in base 36: the code is the single
    character [I], though the request brings a code of its own. *)
Definition half_drawn : env := scripted [] "0.i".

Definition request_with_code : VerificationRequest.t :=
  {| VerificationRequest.id := None;
     VerificationRequest.type := Some Kind.phone;
     VerificationRequest.value := Some (js "+1 555 123 4567");
     VerificationRequest.status := None;
     VerificationRequest.verification_code := Some (js "CHOSEN");
     VerificationRequest.created_at := None;
     VerificationRequest.updated_at := None;
     VerificationRequest.ip_address := None;
     VerificationRequest.user_agent := None;
     VerificationRequest.validation_data := None;
     VerificationRequest.reputation_data := None;
     VerificationRequest.api_response_time := None;
     VerificationRequest.quality_score := None;
     VerificationRequest.risk_level := None |}.

(** Ten digits and a tab: the regular expression of the route accepts
    the value, though a tab is no space. *)
Definition tabbed : jsstring := js "1234567890" ++ [9%N].

(** The service answers at once that the number is a mobile one. *)
Definition answering : env := scripted [x200 mobile] "0.4fzyo82mvyr".

(** The zone of the server is 5 hours ahead of UTC (Asia/Karachi, a zone
    without daylight saving time), and the service answers twice that
    the number is a mobile one. *)
Definition karachi : env :=
  {| ABSTRACT_EMAIL_API_KEY := Some (js "email-key");
     ABSTRACT_PHONE_API_KEY := Some (js "phone-key");
     net := fun n => nth n [x200 mobile; x200 mobile] unreachable;
     random36 := fun _ => js "0.4fzyo82mvyr";
     local_time := fun t => t - 5 * 60 * 60 * 1000 |}.

(** The service takes 12 seconds for its first answer, 2 seconds more
    than the client waits, and 5 seconds for its second. *)
Definition sluggish : env :=
  scripted
    [{| elapsed := 12000; result := Response 200 (js "{...}") (Some mobile) |};
     {| elapsed := 5000; result := Response 200 (js "{...}") (Some mobile) |}]
    "0.4fzyo82mvyr".

(** The service is down: three answers 503. *)
Definition outage : env := scripted [x503; x503; x503] "0.4fzyo82mvyr".

Definition a_phone : jsstring := js "+1 (555) 123-4567".

(** The world after one successful verification of [a_phone]. *)
Definition world1 : world :=
  snd (POST answering (phone_request a_phone) world0).

(** The service answers 503 twice and then that the number is a mobile
    one. *)
Definition recovering : env :=
  scripted [x503; x503; x200 mobile] "0.4fzyo82mvyr".

(** The service answers 404 to every call. *)
Definition not_found : env := scripted [x404; x404; x404] "0.4fzyo82mvyr".

(** The service answers 404 once and then that the number is a mobile
    one. *)
Definition not_found_once : env :=
  scripted [x404; x200 mobile] "0.4fzyo82mvyr".

(** An answer of the email service with the fields [validateEmail]
    requires. *)
Definition deliverable : json :=
  JObj [("email_address", JStr (js "test@example.com"));
        ("email_deliverability",
         JObj [("status", JStr (js "deliverable"))]);
        ("email_quality", JObj [("score", JNum (85 # 100))])]%string.

(** The email service answers 503, then 404, then with a well-formed
    body. *)
Definition not_found_second : env :=
  scripted [x503; x404; x200 deliverable] "0.4fzyo82mvyr".

(** The email service answers 404 at the first call. *)
Definition not_found_first : env :=
  scripted [x404; x200 deliverable] "0.4fzyo82mvyr".

(** The service answers 200 with the empty object. *)
Definition hollow : env := scripted [x200 (JObj [])] "0.4fzyo82mvyr".

(** The status of the answer of the handler. *)
Definition status_of (o : outcome Next.NextResponse) : option Z :=
  match o with
  | Returned r => Some (Next.http_status r)
  | Thrown _ => None
  end.

(** What a client returned, if it did. *)
Definition data_of (o : outcome json) : option json :=
  match o with
  | Returned data => Some data
  | Thrown _ => None
  end.

(** The email service answers 200 with the empty object, three times. *)
Definition hollow_email : env :=
  scripted [x200 (JObj []); x200 (JObj []); x200 (JObj [])] "0.4fzyo82mvyr".

(** A request to insert with zeros for the response time and for the
    quality score. *)
Definition zeros : VerificationRequest.t :=
  new_request (phone_request a_phone) a_phone mobile (Some (JBool true)) 0 low.

(** An update of the status and of the risk level. *)
Definition verdict : VerificationRequest.t :=
  {| VerificationRequest.id := Some 7;
     VerificationRequest.type := Some Kind.email;
     VerificationRequest.value := Some (js "other");
     VerificationRequest.status := Some failed;
     VerificationRequest.verification_code := Some (js "CHOSEN");
     VerificationRequest.created_at := Some 0;
     VerificationRequest.updated_at := Some 0;
     VerificationRequest.ip_address := Some (js "198.51.100.1");
     VerificationRequest.user_agent := Some (js "agent");
     VerificationRequest.validation_data := None;
     VerificationRequest.reputation_data := None;
     VerificationRequest.api_response_time := None;
     VerificationRequest.quality_score := None;
     VerificationRequest.risk_level := Some high |}.

(** * The vocabulary of the claims *)

(** The phone value a request carries, when its body is JSON and holds
    a string under [phone]. *)
Definition value_of (request : Next.NextRequest) : option jsstring :=
  match Next.body request with
  | Some b =>
      match prop b "phone" with
      | Returned (Some (JStr v)) => Some v
      | _ => None
      end
  | None => None
  end.

(** A prior attempt on [(kind, value)] within the last 5 minutes: a row
    of the table, of this kind and value, created less than 5 minutes
    before the present instant of [w]. *)
Definition prior_attempt (w : world) (kind : Kind.t) (value : jsstring) : Prop :=
  exists id r,
    rows (db w) !! id = Some r
    /\ Schema.type r = kind
    /\ Schema.value r = value
    /\ now w - 5 * 60 * 1000 < Schema.created_at r.

(** The test of the route itself: a row of the table, of this kind and
    value, whose [created_at], read in the zone of the server, is less
    than 5 minutes before the present instant of [w]. *)
Definition rate_limited (E : env) (w : world) (kind : Kind.t) (value : jsstring)
  : Prop :=
  exists id r,
    rows (db w) !! id = Some r
    /\ Schema.type r = kind
    /\ Schema.value r = value
    /\ now w - 5 * 60 * 1000 < local_time E (Schema.created_at r).

(** The zone of the server is UTC: a text of the table is read back as
    the instant that was written. *)
Definition UTC (E : env) : Prop := forall t, local_time E t = t.

(** The loose pattern of the specification: an optional leading [+],
    then at least 10 characters, each a digit, a hyphen, a parenthesis
    or what [blank] takes for a space. *)
Definition loose_pattern (blank : N -> bool) (v : jsstring) : Prop :=
  exists rest,
    (v = rest \/ v = 43%N :: rest)
    /\ (10 <= length rest)%nat
    /\ forallb
         (fun c => is_digit c || blank c || (c =? 45) || (c =? 40) || (c =? 41))%N
         rest = true.

(** The space character alone, and the white space of the regular
    expression. *)
Definition space_only (c : N) : bool := (c =? 32)%N.

(** The events of the external call: a [fetch] and a wait. *)
Definition is_external (e : event) : bool :=
  match e with
  | EFetch | ESleep _ => true
  | _ => false
  end.

(** [w1] comes from [w] by external calls and waits alone: the table is
    the same and the log has grown by such events. *)
Definition external_only (w w1 : world) : Prop :=
  db w1 = db w
  /\ exists l, log w1 = log w ++ l /\ forallb is_external l = true.

(** A computation that touches nothing but the external service. *)
Definition external {A} (m : M A) : Prop :=
  forall w, external_only w (snd (m w)).

(** Every row of kind phone holds a value the regular expression of the
    route accepts. *)
Definition phone_rows_valid (s : store) : Prop :=
  forall id r,
    rows s !! id = Some r ->
    Schema.type r = Kind.phone ->
    phoneRegex_test (Schema.value r) = true.

(** A pending record of the value [v] in the table of [w]. *)
Definition pending_record (w : world) (v : jsstring) : Prop :=
  exists id r,
    rows (db w) !! id = Some r
    /\ Schema.value r = v
    /\ Schema.status r = pending.

(** The world [ms] milliseconds later, after the events [es]. *)
Definition after (w : world) (ms : Z) (es : list event) : world :=
  {| db := db w; now := now w + ms; log := log w ++ es |}.

(** A retryable failure of an exchange: no answer within the timeout, a
    failure of the network, an answer with a status of 500 or more, or
    with the status 429. *)
Definition retryable (x : exchange) : bool :=
  (timeout <=? elapsed x)
  || match result x with
     | NetworkFailure _ => true
     | Response st _ _ => (500 <=? st) || (st =? 429)
     end.

(** The exchange brings, in time, a response of a status 2xx whose body
    is the JSON value [data]. *)
Definition answers (x : exchange) (data : json) : Prop :=
  elapsed x < timeout
  /\ exists st tx, result x = Response st tx (Some data) /\ 200 <= st <= 299.

(** The top-level fields [validateEmail] requires are there. *)
Definition email_fields_present (data : json) : Prop :=
  exists a d,
    prop data "email_address" = Returned a
    /\ prop data "email_deliverability" = Returned d
    /\ truthy a = true /\ truthy d = true.

(** The waits after the attempts 1 to [k]. *)
Definition waits (k : nat) : list Z := map backoff (attempts 1 (Z.of_nat k)).

(** What the rounds [rounds] log when each ends in a retryable failure
    and a wait. *)
Definition trail (rounds : list Z) : list event :=
  flat_map (fun attempt => [EFetch; ESleep (backoff attempt)]) rounds.

(** The top-level fields [validateEmail] requires are not all there,
    in a body that is an object or a primitive. *)
Definition email_fields_missing (data : json) : Prop :=
  exists a d,
    prop data "email_address" = Returned a
    /\ prop data "email_deliverability" = Returned d
    /\ (truthy a = false \/ truthy d = false).

(** What a run of [k] retryable failures and an answer comes to. *)
Definition run_answer (m : M json) (w : world) (k : nat) (data : json) : Prop :=
  exists w',
    m w = (Returned data, w')
    /\ fetches w' = (fetches w + k + 1)%nat
    /\ sleeps w' = sleeps w ++ waits k.

(** What a run of three retryable failures comes to. *)
Definition run_exhausted (m : M json) (w : world) : Prop :=
  exists e w',
    m w = (Thrown e, w')
    /\ fetches w' = (fetches w + 3)%nat
    /\ sleeps w' = sleeps w ++ waits 2.

(** A computation that makes at most [n] external calls. *)
Definition calls_at_most {A} (n : nat) (m : M A) : Prop :=
  forall w, (fetches (snd (m w)) <= fetches w + n)%nat.

(** An answer with the status [st] and an error message. *)
Definition is_error (st : Z) (r : Next.NextResponse) : Prop :=
  exists msg, r = {| Next.json_body := Next.error msg; Next.http_status := st |}.

(** [x !== undefined] *)
Definition supplied {A} (x : option A) : bool :=
  match x with Some _ => true | None => false end.

(** Whether [updates] supplies one of the columns the update writes. *)
Definition supplies (updates : VerificationRequest.t) : bool :=
  supplied (VerificationRequest.status updates)
  || supplied (VerificationRequest.validation_data updates)
  || supplied (VerificationRequest.reputation_data updates)
  || supplied (VerificationRequest.api_response_time updates)
  || supplied (VerificationRequest.quality_score updates)
  || supplied (VerificationRequest.risk_level updates).

(** [r'] is [r] with the supplied columns of [updates] written, with
    [updated_at] set when there is one, and nothing else changed. *)
Definition updated_row (now : Z) (updates : VerificationRequest.t)
  (r r' : Schema.row) : Prop :=
  Schema.id r' = Schema.id r
  /\ Schema.type r' = Schema.type r
  /\ Schema.value r' = Schema.value r
  /\ Schema.verification_code r' = Schema.verification_code r
  /\ Schema.created_at r' = Schema.created_at r
  /\ Schema.ip_address r' = Schema.ip_address r
  /\ Schema.user_agent r' = Schema.user_agent r
  /\ Schema.status r' =
       default (Schema.status r) (VerificationRequest.status updates)
  /\ Schema.validation_data r' =
       from_option Some (Schema.validation_data r)
         (VerificationRequest.validation_data updates)
  /\ Schema.reputation_data r' =
       from_option Some (Schema.reputation_data r)
         (VerificationRequest.reputation_data updates)
  /\ Schema.api_response_time r' =
       from_option Some (Schema.api_response_time r)
         (VerificationRequest.api_response_time updates)
  /\ Schema.quality_score r' =
       from_option Some (Schema.quality_score r)
         (VerificationRequest.quality_score updates)
  /\ Schema.risk_level r' =
       from_option Some (Schema.risk_level r)
         (VerificationRequest.risk_level updates)
  /\ Schema.updated_at r' =
       (if supplies updates then CURRENT_TIMESTAMP now else Schema.updated_at r).

(** The lower-case and the upper-case digits of base 36. *)
Definition is_base36 (c : N) : bool :=
  (is_digit c || ((97 <=? c) && (c <=? 122)))%N.

Definition is_upper_base36 (c : N) : bool :=
  (is_digit c || ((65 <=? c) && (c <=? 90)))%N.

(** What [x.toString(36)] gives for a number [x] of [[0, 1)], the range
    of [Math.random()]: [0], or [0.] and digits of base 36. *)
Definition radix36_fraction (s : jsstring) : bool :=
  match s with
  | [48%N] => true
  | 48%N :: 46%N :: ds => forallb is_base36 ds
  | _ => false
  end.

(** The code [createVerificationRequest] computes from the next draw
    of [w]. *)
Definition next_code (E : env) (w : world) : jsstring :=
  toUpperCase (substring 2 8 (random36 E (draws w))).

(** The ids of the table are those of its rows and none is beyond the
    counter of [AUTOINCREMENT]. *)
Definition well_keyed (s : store) : Prop :=
  forall id r, rows s !! id = Some r -> Schema.id r = id /\ id <= seq s.

(** An update that supplies the status alone. *)
Definition only_status (st : Status) : VerificationRequest.t :=
  {| VerificationRequest.id := None;
     VerificationRequest.type := None;
     VerificationRequest.value := None;
     VerificationRequest.status := Some st;
     VerificationRequest.verification_code := None;
     VerificationRequest.created_at := None;
     VerificationRequest.updated_at := None;
     VerificationRequest.ip_address := None;
     VerificationRequest.user_agent := None;
     VerificationRequest.validation_data := None;
     VerificationRequest.reputation_data := None;
     VerificationRequest.api_response_time := None;
     VerificationRequest.quality_score := None;
     VerificationRequest.risk_level := None |}.

(** The later of two values supplied for a column. *)
Definition later {A} (first second : option A) : option A :=
  match second with
  | Some x => Some x
  | None => first
  end.

(** The updates [u1] and then [u2], as one. *)
Definition merged (u1 u2 : VerificationRequest.t) : VerificationRequest.t :=
  {| VerificationRequest.id := None;
     VerificationRequest.type := None;
     VerificationRequest.value := None;
     VerificationRequest.status :=
       later (VerificationRequest.status u1) (VerificationRequest.status u2);
     VerificationRequest.verification_code := None;
     VerificationRequest.created_at := None;
     VerificationRequest.updated_at := None;
     VerificationRequest.ip_address := None;
     VerificationRequest.user_agent := None;
     VerificationRequest.validation_data :=
       later (VerificationRequest.validation_data u1)
         (VerificationRequest.validation_data u2);
     VerificationRequest.reputation_data :=
       later (VerificationRequest.reputation_data u1)
         (VerificationRequest.reputation_data u2);
     VerificationRequest.api_response_time :=
       later (VerificationRequest.api_response_time u1)
         (VerificationRequest.api_response_time u2);
     VerificationRequest.quality_score :=
       later (VerificationRequest.quality_score u1)
         (VerificationRequest.quality_score u2);
     VerificationRequest.risk_level :=
       later (VerificationRequest.risk_level u1)
         (VerificationRequest.risk_level u2) |}.

(** Newest first. *)
Definition not_older (a b : Schema.row) : Prop :=
  Schema.created_at b <= Schema.created_at a.

(** The rows of the table of the kind [k] and the value [v]. *)
Definition matching (k : Kind.t) (v : jsstring) (s : store) : list Schema.row :=
  List.filter
    (fun r => Kind.eqb (Schema.type r) k && jsstring_eqb (Schema.value r) v)
    (all_rows s).

(** How a round of a client can end in [w]: with the body of the
    answer, with a wait and on to the next round when it is not the
    last, or with an error when it is the last; one call in each case. *)
Definition round_ends (round : Z -> M (step json)) (attempt : Z) (w : world)
  : Prop :=
  exists ms,
    (exists data, round attempt w = (Returned (Return data), after w ms [EFetch]))
    \/ ((attempt =? maxRetries) = false
        /\ round attempt w
           = (Returned Continue, after w ms [EFetch; ESleep (backoff attempt)]))
    \/ ((attempt =? maxRetries) = true
        /\ exists e, round attempt w = (Thrown e, after w ms [EFetch])).

(** Two computations that end in the same world, with the same value or
    each with an error. *)
Definition alike {A} (m1 m2 : M A) (w : world) : Prop :=
  snd (m1 w) = snd (m2 w)
  /\ match fst (m1 w), fst (m2 w) with
     | Returned a, Returned b => a = b
     | Thrown _, Thrown _ => True
     | _, _ => False
     end.

(** The answers of [POST] that are no success: the message and the
    status. *)
Definition error_answers : list (string * Z) :=
  [("Valid phone number is required", 400);
   ("Invalid phone number format", 400);
   ("Please wait before requesting another verification", 429);
   ("Failed to validate phone with external service", 502);
   ("Internal server error", 500)]%string.

Definition error_answer (r : Next.NextResponse) : Prop :=
  exists msg st,
    In (msg, st) error_answers
    /\ r = {| Next.json_body := Next.error (js msg); Next.http_status := st |}.

Definition success_answer (r : Next.NextResponse) : Prop :=
  exists s,
    r = {| Next.json_body := Next.success_true s; Next.http_status := 200 |}.

(** The pairs of a score and a risk level that the scoring gives. *)
Definition scores : list (Q * Risk) :=
  [((1 # 10)%Q, high); ((9 # 10)%Q, low); ((7 # 10)%Q, low);
   ((5 # 10)%Q, medium); ((8 # 10)%Q, low)].

(** A row as the handler leaves it: decided, scored, with its code, its
    response time and the provenance of the request, and failed exactly
    when its risk is high. *)
Definition settled (r : Schema.row) : Prop :=
  Schema.status r <> pending
  /\ (Schema.status r = failed <-> Schema.risk_level r = Some high)
  /\ (exists q rl,
        Schema.quality_score r = Some q
        /\ Schema.risk_level r = Some rl
        /\ In (q, rl) scores)
  /\ is_Some (Schema.verification_code r)
  /\ is_Some (Schema.api_response_time r)
  /\ (exists ip, Schema.ip_address r = Some ip /\ ip <> [])
  /\ (exists ua, Schema.user_agent r = Some ua /\ ua <> []).

Definition all_settled (s : store) : Prop :=
  forall id r, rows s !! id = Some r -> settled r.

(** * Properties *)

(** ** The record store: updates *)

Lemma update_fields_nil (updates : VerificationRequest.t) :
  supplies updates = false -> update_fields updates = [].
Proof.
  destruct updates as [? ? ? st ? ? ? ? ? vd rd rt qs rl].
  unfold supplies, update_fields; simpl.
  destruct st, vd, rd, rt, qs, rl; simpl; congruence.
Qed.

Lemma update_fields_assign (now : Z) (updates : VerificationRequest.t)
  (r : Schema.row) :
  supplies updates = true ->
  update_fields updates <> []
  /\ updated_row now updates r
       (fold_left (fun r a => assign now a r)
          (update_fields updates ++ [SetUpdatedAt]) r).
Proof.
  destruct updates as [? ? ? st ? ? ? ? ? vd rd rt qs rl].
  destruct r as [i ty va s co ca ua ip ag vd0 rd0 rt0 qs0 rl0].
  unfold supplies, update_fields, updated_row; simpl.
  destruct st, vd, rd, rt, qs, rl; simpl; intros H;
    solve [ discriminate H | split; [ discriminate | repeat split ] ].
Qed.

Lemma updateVerificationRequest_spec
  (id : Z) (updates : VerificationRequest.t) (w : world) :
  exists w',
    updateVerificationRequest id updates w = (Returned tt, w')
    /\ now w' = now w
    /\ log w' = (if supplies updates then log w ++ [EUpdate id] else log w)
    /\ seq (db w') = seq (db w)
    /\ (forall id', id' <> id -> rows (db w') !! id' = rows (db w) !! id')
    /\ (rows (db w) !! id = None -> db w' = db w)
    /\ (forall r, rows (db w) !! id = Some r ->
        exists r', rows (db w') !! id = Some r'
                   /\ updated_row (now w) updates r r').
Proof.
  unfold updateVerificationRequest.
  destruct (supplies updates) eqn:Hs.
  - destruct (update_fields updates) as [|a fields] eqn:Hf.
    { destruct (update_fields_assign 0 updates
                  (Schema.mkRow 0 Kind.phone [] pending None 0 0 None None
                     None None None None None) Hs) as [Hne _].
      now rewrite Hf in Hne. }
    rewrite <- Hf.
    replace (0 <? Z.of_nat (length (update_fields updates))) with true
      by (rewrite Hf; simpl; symmetry; apply Z.ltb_lt; lia).
    eexists. split; [reflexivity|]. simpl.
    split; [reflexivity|]. split; [reflexivity|].
    split; [reflexivity|]. split; [|split].
    + intros id' Hne. now apply lookup_alter_ne.
    + intros Hnone. destruct (db w) as [m sq]. unfold sql_update.
      simpl in *. f_equal.
      now apply alter_id'.
    + intros r Hr. rewrite lookup_alter_eq, Hr. simpl.
      eexists. split; [reflexivity|].
      pose proof (update_fields_assign (now w) updates r Hs) as [_ Hu].
      unfold updated_row in *. now rewrite Hs in *.
  - rewrite (update_fields_nil updates Hs). simpl.
    exists w. repeat split; auto.
    intros r Hr. exists r. split; [exact Hr|].
    destruct updates as [? ? ? st ? ? ? ? ? vd rd rt qs rl].
    unfold supplies in Hs; simpl in Hs.
    destruct st, vd, rd, rt, qs, rl; try discriminate Hs.
    unfold updated_row, supplies; simpl. repeat split.
Qed.

(** C8. An update leaves every other row as it was; in the row of the
    given id it writes the supplied columns among status,
    validation_data, reputation_data, api_response_time, quality_score
    and risk_level, sets updated_at when one of them is supplied, and
    leaves every other column as it was; when no row has the id it
    returns without an error and the table is what it was. *)
Theorem updateVerificationRequest_frame
  (id : Z) (updates : VerificationRequest.t) (w : world) :
  exists w',
    updateVerificationRequest id updates w = (Returned tt, w')
    /\ seq (db w') = seq (db w)
    /\ (forall id', id' <> id -> rows (db w') !! id' = rows (db w) !! id')
    /\ (rows (db w) !! id = None -> db w' = db w)
    /\ (forall r, rows (db w) !! id = Some r ->
        exists r', rows (db w') !! id = Some r'
                   /\ updated_row (now w) updates r r').
Proof.
  destruct (updateVerificationRequest_spec id updates w)
    as (w' & Hrun & _ & _ & Hrest).
  exists w'. split; [exact Hrun | exact Hrest].
Qed.

(** In the table of [world1], whose only row has the id 1: an update of
    the id 99 changes nothing, and an update of the id 1 that brings a
    status, a risk level and other columns writes the status and the
    risk level alone. *)
Lemma updateVerificationRequest_frame_witness :
  rows (db world1) !! 99 = None
  /\ db (snd (updateVerificationRequest 99 verdict world1)) = db world1
  /\ exists r r',
       rows (db world1) !! 1 = Some r
       /\ rows (db (snd (updateVerificationRequest 1 verdict world1))) !! 1
          = Some r'
       /\ updated_row (now world1) verdict r r'
       /\ Schema.status r = verified /\ Schema.status r' = failed
       /\ Schema.value r' = a_phone.
Proof.
  assert (Hnone : rows (db world1) !! 99 = None) by (vm_compute; reflexivity).
  split; [exact Hnone|]. split.
  - destruct (updateVerificationRequest_frame 99 verdict world1)
      as (w' & Hrun & _ & _ & Hsame & _).
    rewrite Hrun. simpl. exact (Hsame Hnone).
  - destruct (updateVerificationRequest_frame 1 verdict world1)
      as (w' & Hrun & _ & _ & _ & Hrow).
    assert (Hr : exists r, rows (db world1) !! 1 = Some r
                           /\ Schema.status r = verified
                           /\ Schema.value r = a_phone).
    { eexists. split; [vm_compute; reflexivity|]. split; reflexivity. }
    destruct Hr as (r & Hr & Hst & Hval).
    destruct (Hrow r Hr) as (r' & Hr' & Hu).
    exists r, r'. rewrite Hrun. simpl.
    split; [exact Hr|]. split; [exact Hr'|]. split; [exact Hu|].
    split; [exact Hst|].
    destruct Hu as (_ & _ & Hv & _ & _ & _ & _ & Hs & _).
    split; [exact Hs | now rewrite Hv].
Defined.

(** ** The record store: insertion *)

Section Insertion.

Context (E : env).

Lemma createVerificationRequest_Returned request w ret w' :
  createVerificationRequest E request w = (Returned ret, w') ->
  exists ty va r,
    VerificationRequest.type request = Some ty
    /\ VerificationRequest.value request = Some va
    /\ db w' = {| rows := <[seq (db w) + 1 := r]> (rows (db w));
                  seq := seq (db w) + 1 |}
    /\ now w' = now w
    /\ log w' = log w ++ [ERandom; EInsert (seq (db w) + 1)]
    /\ VerificationRequest.id ret =
         Some (default (seq (db w) + 1) (VerificationRequest.id request))
    /\ VerificationRequest.verification_code ret = Some (next_code E w)
    /\ r = {| Schema.id := seq (db w) + 1;
              Schema.type := ty;
              Schema.value := va;
              Schema.status :=
                default pending (VerificationRequest.status request);
              Schema.verification_code := Some (next_code E w);
              Schema.created_at := CURRENT_TIMESTAMP (now w);
              Schema.updated_at := CURRENT_TIMESTAMP (now w);
              Schema.ip_address := VerificationRequest.ip_address request;
              Schema.user_agent := VerificationRequest.user_agent request;
              Schema.validation_data :=
                stringify_or_null (VerificationRequest.validation_data request);
              Schema.reputation_data :=
                stringify_or_null (VerificationRequest.reputation_data request);
              Schema.api_response_time :=
                or_null_Z (VerificationRequest.api_response_time request);
              Schema.quality_score :=
                or_null_Q (VerificationRequest.quality_score request);
              Schema.risk_level := VerificationRequest.risk_level request |}.
Proof.
  unfold createVerificationRequest, sql_insert, Math_random_toString36.
  destruct (VerificationRequest.type request) as [ty|] eqn:Ht;
    destruct (VerificationRequest.value request) as [va|] eqn:Hv;
    cbn; try discriminate.
  intros [= <- <-]. cbn.
  exists ty, va. eexists. rewrite <- app_assoc. cbn.
  repeat split; reflexivity.
Qed.

Lemma createVerificationRequest_total request w ty va :
  VerificationRequest.type request = Some ty ->
  VerificationRequest.value request = Some va ->
  exists ret w', createVerificationRequest E request w = (Returned ret, w').
Proof.
  intros Ht Hv.
  unfold createVerificationRequest, sql_insert, Math_random_toString36.
  rewrite Ht, Hv. cbn. eauto.
Qed.

Lemma substring_length from to s : (length (substring from to s) <= to - from)%nat.
Proof. unfold substring. rewrite length_take. lia. Qed.

Lemma upper_unit_base36 c : is_base36 c = true -> is_upper_base36 (upper_unit c) = true.
Proof.
  unfold is_base36, is_upper_base36, upper_unit, is_digit.
  destruct ((97 <=? c)%N && (c <=? 122)%N) eqn:Hl.
  - intros _. apply andb_true_iff in Hl as [H1 H2].
    apply N.leb_le in H1, H2.
    replace ((65 <=? c - 32)%N) with true by (symmetry; apply N.leb_le; lia).
    replace ((c - 32 <=? 90)%N) with true by (symmetry; apply N.leb_le; lia).
    now rewrite orb_true_r.
  - rewrite orb_false_r. intros H. now rewrite H.
Qed.

Lemma forallb_skipn {A} (p : A -> bool) n l :
  forallb p l = true -> forallb p (skipn n l) = true.
Proof.
  revert l; induction n as [|n IH]; intros [|x l]; simpl; auto.
  intros H. apply andb_true_iff in H as [_ H]. auto.
Qed.

Lemma forallb_firstn {A} (p : A -> bool) n l :
  forallb p l = true -> forallb p (firstn n l) = true.
Proof.
  revert l; induction n as [|n IH]; intros [|x l]; simpl; auto.
  intros H. apply andb_true_iff in H as [Hx H]. rewrite Hx. simpl. auto.
Qed.

Lemma code_of_fraction s :
  radix36_fraction s = true ->
  forallb is_upper_base36 (toUpperCase (substring 2 8 s)) = true.
Proof.
  intros H.
  assert (Hds : forallb is_base36 (skipn 2 s) = true).
  { destruct s as [|a [|b ds]]; [reflexivity | reflexivity |].
    - change (skipn 2 (a :: b :: ds)) with ds.
      unfold radix36_fraction in H.
      repeat (match type of H with
              | match ?x with _ => _ end = _ => destruct x; try discriminate H
              end).
      exact H. }
  unfold toUpperCase, substring.
  apply (forallb_firstn _ (8 - 2)) in Hds.
  apply forallb_forall. intros c Hc. apply in_map_iff in Hc as [c0 [<- Hc0]].
  apply upper_unit_base36. eapply forallb_forall in Hds; eauto.
Qed.

End Insertion.

(** C10. Every row that [createVerificationRequest] inserts carries the
    code it computes from the draw of [Math.random]: at most 6
    characters, each a digit or a letter A-Z.  The code is the same
    whatever the request holds (its value, its validation data, a
    [verification_code] of its own), in the row and in the object
    returned.  The draw is taken as [Number.prototype.toString(36)]
    renders a number of [[0, 1)]. *)
Theorem verification_code_shape
  (E : env) (request : VerificationRequest.t) (w : world)
  (ret : VerificationRequest.t) (w' : world) :
  (forall n, radix36_fraction (random36 E n) = true) ->
  createVerificationRequest E request w = (Returned ret, w') ->
  (exists r,
      rows (db w') !! (seq (db w) + 1) = Some r
      /\ Schema.verification_code r = Some (next_code E w))
  /\ VerificationRequest.verification_code ret = Some (next_code E w)
  /\ (length (next_code E w) <= 6)%nat
  /\ forallb is_upper_base36 (next_code E w) = true
  /\ (forall request2 ret2 w2,
        createVerificationRequest E request2 w = (Returned ret2, w2) ->
        VerificationRequest.verification_code ret2
        = VerificationRequest.verification_code ret).
Proof.
  intros Hrng Hrun.
  destruct (createVerificationRequest_Returned E request w ret w' Hrun)
    as (ty & va & r & _ & _ & Hdb & _ & _ & _ & Hcode & Hr).
  split; [|split; [|split; [|split]]].
  - exists r. rewrite Hdb. simpl. rewrite lookup_insert_eq.
    split; [reflexivity|]. now rewrite Hr.
  - exact Hcode.
  - unfold next_code, toUpperCase. rewrite length_map.
    apply (substring_length 2 8).
  - apply code_of_fraction, Hrng.
  - intros request2 ret2 w2 Hrun2.
    destruct (createVerificationRequest_Returned E request2 w ret2 w2 Hrun2)
      as (_ & _ & _ & _ & _ & _ & _ & _ & _ & Hcode2 & _).
    congruence.
Qed.

Lemma verification_code_shape_witness :
  let run := createVerificationRequest half_drawn request_with_code world0 in
  next_code half_drawn world0 = js "I"
  /\ (exists r,
        rows (db (snd run)) !! (seq (db world0) + 1) = Some r
        /\ Schema.verification_code r = Some (next_code half_drawn world0))
  /\ VerificationRequest.verification_code
       (returned VerificationRequest.empty (fst run))
     = Some (next_code half_drawn world0).
Proof.
  split; [reflexivity|].
  assert (Hrng : forall n, radix36_fraction (random36 half_drawn n) = true)
    by (intros n; reflexivity).
  assert (Hrun :
    createVerificationRequest half_drawn request_with_code world0
    = (Returned
         (returned VerificationRequest.empty
            (fst (createVerificationRequest half_drawn request_with_code world0))),
       snd (createVerificationRequest half_drawn request_with_code world0)))
    by reflexivity.
  destruct (verification_code_shape half_drawn request_with_code world0 _ _
              Hrng Hrun) as (Hrow & Hret & _).
  split; [exact Hrow | exact Hret].
Defined.

(** ** The handler: rejected requests *)

Section Handler.

Context (E : env).

Lemma phoneRegex_nonempty v : phoneRegex_test v = true -> v <> [].
Proof. intros H ->. discriminate H. Qed.

(** The regular expression accepts what the loose pattern describes,
    with the white space of [\s] for the spaces. *)
Lemma phoneRegex_test_loose_pattern v :
  phoneRegex_test v = true <-> loose_pattern is_space v.
Proof.
  assert (Hc : forall l, class_10_to_end l = true <->
                 (10 <= length l)%nat /\ forallb in_class l = true).
  { intros l. unfold class_10_to_end. rewrite andb_true_iff, Nat.leb_le. tauto. }
  unfold loose_pattern. fold in_class. split.
  - intros H. unfold phoneRegex_test in H.
    assert (Hor : class_10_to_end v = true
                  \/ exists rest, v = 43%N :: rest /\ class_10_to_end rest = true).
    { destruct v as [|c rest]; [now left|].
      destruct (N.eq_dec c 43%N) as [->|Hne].
      - cbn in H. apply orb_true_iff in H as [H|H]; [right; eauto | now left].
      - left. revert H.
        repeat (match goal with
                | |- context [match ?x with _ => _ end] => destruct x
                end; try congruence); auto. }
    destruct Hor as [H1 | (rest & -> & H1)]; apply Hc in H1 as [? ?]; eauto.
  - intros (rest & [-> | ->] & Hlen & Hall).
    + assert (H1 : class_10_to_end rest = true) by (apply Hc; auto).
      unfold phoneRegex_test.
      repeat (match goal with
              | |- context [match ?x with _ => _ end] => destruct x
              end; auto).
      rewrite H1. apply orb_true_r.
    + assert (H1 : class_10_to_end rest = true) by (apply Hc; auto).
      simpl. rewrite H1. reflexivity.
Qed.

(** A body that is JSON and holds, under [phone], no string that the
    regular expression accepts: 400, and nothing else happens. *)
Lemma POST_invalid request w b x :
  Next.body request = Some b ->
  prop b "phone" = Returned x ->
  (forall v, x = Some (JStr v) -> phoneRegex_test v = false) ->
  exists r, POST E request w = (Returned r, w) /\ is_error 400 r.
Proof.
  intros Hb Hp Hx.
  unfold POST, bind, try_catch, lift, respond, ret, Date_now. rewrite Hb, Hp.
  destruct x as [[| | |[|c s]| |]|];
    try (eexists; split; [reflexivity | eexists; reflexivity]).
  rewrite (Hx (c :: s) eq_refl). simpl.
  eexists; split; [reflexivity | eexists; reflexivity].
Qed.

End Handler.

(** ** The external client touches nothing but the service *)

Section External.

Context (E : env).

Lemma external_only_refl w : external_only w w.
Proof. split; [reflexivity|]. exists []. now rewrite app_nil_r. Qed.

Lemma external_only_trans w1 w2 w3 :
  external_only w1 w2 -> external_only w2 w3 -> external_only w1 w3.
Proof.
  intros [Hd1 (l1 & Hl1 & Hf1)] [Hd2 (l2 & Hl2 & Hf2)].
  split; [congruence|]. exists (l1 ++ l2).
  rewrite Hl2, Hl1, <- app_assoc, forallb_app, Hf1, Hf2. auto.
Qed.

Lemma external_ret {A} (a : A) : external (ret a).
Proof. intros w. apply external_only_refl. Qed.

Lemma external_throw {A} e : external (@throw A e).
Proof. intros w. apply external_only_refl. Qed.

Lemma external_lift {A} (o : outcome A) : external (lift o).
Proof. intros w. apply external_only_refl. Qed.

Lemma external_bind {A B} (m : M A) (k : A -> M B) :
  external m -> (forall a, external (k a)) -> external (bind m k).
Proof.
  intros Hm Hk w. unfold bind. specialize (Hm w).
  destruct (m w) as [[a|e] w1]; simpl in *; [|exact Hm].
  eapply external_only_trans; [exact Hm | apply Hk].
Qed.

Lemma external_try_catch {A} (m : M A) h :
  external m -> (forall e, external (h e)) -> external (try_catch m h).
Proof.
  intros Hm Hh w. unfold try_catch. specialize (Hm w).
  destruct (m w) as [[a|e] w1]; simpl in *; [exact Hm|].
  eapply external_only_trans; [exact Hm | apply Hh].
Qed.

Lemma external_advance ms : external (advance ms).
Proof. intros w. split; [reflexivity|]. exists []. now rewrite app_nil_r. Qed.

Lemma external_emit e : is_external e = true -> external (emit e).
Proof.
  intros He w. split; [reflexivity|]. exists [e]. simpl. now rewrite He.
Qed.

Lemma external_sleep delay : external (sleep delay).
Proof.
  apply external_bind; [now apply external_emit | intros _; apply external_advance].
Qed.

Lemma external_fetch : external (fetch E).
Proof.
  intros w. unfold fetch.
  match goal with |- external_only w (snd (?m w)) => assert (H : external m) end;
    [|apply H].
  apply external_bind; [now apply external_emit | intros _].
  destruct (timeout <=? elapsed (net E (fetches w))).
  - apply external_bind; [apply external_advance | intros _; apply external_throw].
  - apply external_bind; [apply external_advance | intros _].
    destruct (result (net E (fetches w)));
      [apply external_throw | apply external_ret].
Qed.

Lemma external_response_json r : external (response_json r).
Proof.
  unfold response_json. destruct (parsed r);
    [apply external_ret | apply external_throw].
Qed.

Lemma external_for_each {A} rounds (body : Z -> M (step A)) after :
  (forall attempt, external (body attempt)) -> external after ->
  external (for_each rounds body after).
Proof.
  intros Hb Ha. induction rounds as [|attempt rest IH]; simpl; [exact Ha|].
  apply external_bind; [apply Hb|]. intros [a|]; [apply external_ret | exact IH].
Qed.

Ltac external_step :=
  first
    [ apply external_ret | apply external_throw | apply external_lift
    | apply external_sleep | apply external_fetch | apply external_response_json
    | apply external_bind; [|intros ?]
    | apply external_try_catch; [|intros ?]
    | match goal with
      | |- external (if ?c then _ else _) => destruct c
      | |- external (match ?x with _ => _ end) => destruct x
      end ].

Lemma external_validatePhone phone : external (validatePhone E phone).
Proof.
  unfold validatePhone.
  apply external_for_each; [intros attempt | apply external_throw].
  unfold validatePhone_round. repeat external_step.
Qed.

Lemma external_validateEmail email : external (validateEmail E email).
Proof.
  unfold validateEmail.
  apply external_for_each; [intros attempt | apply external_throw].
  unfold validateEmail_round. repeat external_step.
Qed.

End External.

(** ** The query of the rate limit *)

Lemma Kind_eqb_eq a b : Kind.eqb a b = true <-> a = b.
Proof. destruct a, b; simpl; split; congruence. Qed.

Lemma jsstring_eqb_eq a b : jsstring_eqb a b = true <-> a = b.
Proof. unfold jsstring_eqb. apply bool_decide_eq_true. Qed.

Lemma In_insert_desc r x l : In x (insert_desc r l) <-> x = r \/ In x l.
Proof.
  induction l as [|y l IH]; simpl; [intuition|].
  destruct (Schema.created_at y <=? Schema.created_at r); simpl;
    rewrite ?IH; intuition.
Qed.

Lemma In_order_by_created_at_desc l x :
  In x (order_by_created_at_desc l) <-> In x l.
Proof.
  unfold order_by_created_at_desc.
  induction l as [|y l IH]; simpl; [tauto|].
  rewrite In_insert_desc, IH. intuition.
Qed.

Lemma In_select_by_value s k v r :
  In r (select_by_value s k v)
  <-> (exists id, rows s !! id = Some r)
      /\ Schema.type r = k /\ Schema.value r = v.
Proof.
  unfold select_by_value.
  rewrite In_order_by_created_at_desc, filter_In, andb_true_iff,
    Kind_eqb_eq, jsstring_eqb_eq, in_map_iff.
  split.
  - intros [([id r0] & Hr & Hin) Hkv]. simpl in Hr. subst r0.
    split; [|exact Hkv]. exists id.
    apply elem_of_map_to_list. now apply list_elem_of_In.
  - intros [[id Hid] Hkv]. split; [|exact Hkv].
    exists (id, r). split; [reflexivity|].
    apply list_elem_of_In. now apply elem_of_map_to_list.
Qed.

Lemma recent_of_row E t r :
  recent E t (of_row r)
  = (t - 5 * 60 * 1000 <? local_time E (Schema.created_at r)).
Proof. reflexivity. Qed.

(** The route finds a recent attempt exactly when the table holds a row
    that it reads as less than 5 minutes old. *)
Lemma find_recent_Some E w k v :
  rate_limited E w k v ->
  exists a,
    List.find (recent E (now w)) (map of_row (select_by_value (db w) k v)) = Some a.
Proof.
  intros (id & r & Hr & Hk & Hv & Ht).
  destruct (List.find (recent E (now w)) (map of_row (select_by_value (db w) k v)))
    as [a|] eqn:Hf; [eauto|].
  exfalso.
  assert (Hin : In (of_row r) (map of_row (select_by_value (db w) k v))).
  { apply in_map, In_select_by_value. eauto. }
  pose proof (find_none _ _ Hf _ Hin) as Hn.
  rewrite recent_of_row in Hn. apply Z.ltb_ge in Hn. lia.
Qed.

Lemma find_recent_None E w k v :
  ~ rate_limited E w k v ->
  List.find (recent E (now w)) (map of_row (select_by_value (db w) k v)) = None.
Proof.
  intros Hno.
  destruct (List.find (recent E (now w)) (map of_row (select_by_value (db w) k v)))
    as [a|] eqn:Hf; [|reflexivity].
  exfalso. apply Hno.
  apply find_some in Hf as [Hin Hrec].
  apply in_map_iff in Hin as (r & <- & Hin).
  apply In_select_by_value in Hin as ([id Hid] & Hk & Hv).
  rewrite recent_of_row in Hrec. apply Z.ltb_lt in Hrec.
  exists id, r. auto.
Qed.

(** In a zone of UTC the test of the route is that of a prior attempt
    within the last 5 minutes. *)
Lemma rate_limited_UTC E w k v :
  UTC E -> (rate_limited E w k v <-> prior_attempt w k v).
Proof.
  intros Hutc.
  split; intros (id & r & Hr & Hk & Hv & Ht); exists id, r;
    rewrite Hutc in *; auto.
Qed.

(** ** The handler: requests that pass the validation of the input *)

Section Accepted.

Context (E : env).

Lemma value_of_Some request v :
  value_of request = Some v ->
  exists b, Next.body request = Some b
            /\ prop b "phone" = Returned (Some (JStr v)).
Proof.
  unfold value_of. destruct (Next.body request) as [b|]; [|discriminate].
  destruct (prop b "phone") as [x|e] eqn:Hp; [|discriminate].
  destruct x as [j|]; [|discriminate].
  destruct j; try discriminate.
  intros [= ->]. eauto.
Qed.

(** The request is rate limited: answer 429, and nothing else happens. *)
Lemma POST_rate_limited request w v :
  value_of request = Some v ->
  phoneRegex_test v = true ->
  rate_limited E w Kind.phone v ->
  exists r, POST E request w = (Returned r, w) /\ is_error 429 r.
Proof.
  intros Hv Hre Hprior.
  apply value_of_Some in Hv as (b & Hb & Hp).
  destruct (find_recent_Some E w Kind.phone v Hprior) as [a Ha].
  pose proof (phoneRegex_nonempty v Hre) as Hne.
  destruct v as [|c s]; [congruence|].
  unfold POST, bind, try_catch, lift, respond, ret, Date_now,
    getVerificationRequestsByValue, get_db.
  rewrite Hb, Hp, Hre. simpl. rewrite Ha.
  eexists; split; [reflexivity | eexists; reflexivity].
Qed.

(** The external call fails for good: answer 502, in the world the
    client left. *)
Lemma POST_external_failure request w v e w1 :
  value_of request = Some v ->
  phoneRegex_test v = true ->
  ~ rate_limited E w Kind.phone v ->
  validatePhone E v w = (Thrown e, w1) ->
  exists r, POST E request w = (Returned r, w1) /\ is_error 502 r.
Proof.
  intros Hv Hre Hprior Hcall.
  apply value_of_Some in Hv as (b & Hb & Hp).
  pose proof (find_recent_None E w Kind.phone v Hprior) as Hf.
  pose proof (phoneRegex_nonempty v Hre) as Hne.
  destruct v as [|c s]; [congruence|].
  unfold POST, bind, try_catch, lift, respond, ret, Date_now,
    getVerificationRequestsByValue, get_db.
  rewrite Hb, Hp, Hre. simpl. rewrite Hf, Hcall.
  eexists; split; [reflexivity | eexists; reflexivity].
Qed.

Lemma scoring_valid validationData q rl :
  scoring validationData = Returned (q, rl) ->
  exists valid, prop validationData "valid" = Returned valid.
Proof.
  unfold scoring.
  destruct (prop validationData "valid") as [valid|e]; [eauto | discriminate].
Qed.

(** The external call succeeds and the answer can be scored: one row is
    inserted, with the outcome of the validation, then its response time
    is written, and the answer is 200. *)
Lemma POST_success request w v validationData w1 q rl :
  value_of request = Some v ->
  phoneRegex_test v = true ->
  ~ rate_limited E w Kind.phone v ->
  validatePhone E v w = (Returned validationData, w1) ->
  scoring validationData = Returned (q, rl) ->
  exists valid created w2 w3,
    prop validationData "valid" = Returned valid
    /\ createVerificationRequest E
         (new_request request v validationData valid q rl) w1
       = (Returned created, w2)
    /\ updateVerificationRequest (seq (db w1) + 1)
         (response_time (now w1 - now w)) w2
       = (Returned tt, w3)
    /\ POST E request w
       = (Returned
            {| Next.json_body :=
                 Next.success_true
                   {| Next.message := js "Phone validation completed successfully";
                      Next.requestId := Some (seq (db w1) + 1);
                      Next.verificationCode := Some (next_code E w1);
                      Next.validation := validationData;
                      Next.qualityScore := q;
                      Next.riskLevel := rl;
                      Next.responseTime := now w1 - now w;
                      Next.timestamp := now w1 |};
               Next.http_status := 200 |},
          w3).
Proof.
  intros Hv Hre Hprior Hcall Hscore.
  apply value_of_Some in Hv as (b & Hb & Hp).
  pose proof (find_recent_None E w Kind.phone v Hprior) as Hf.
  pose proof (phoneRegex_nonempty v Hre) as Hne.
  destruct (scoring_valid _ _ _ Hscore) as [valid Hvalid].
  destruct (createVerificationRequest_total E
              (new_request request v validationData valid q rl) w1 Kind.phone v
              eq_refl eq_refl) as (created & w2 & Hcreate).
  destruct (createVerificationRequest_Returned E _ _ _ _ Hcreate)
    as (ty & va & r & _ & _ & Hdb & Hnow & Hlog & Hid & Hcode & _).
  destruct (updateVerificationRequest_spec (seq (db w1) + 1)
              (response_time (now w1 - now w)) w2) as (w3 & Hupd & Hnow3 & _).
  exists valid, created, w2, w3.
  split; [exact Hvalid|]. split; [exact Hcreate|]. split; [exact Hupd|].
  destruct v as [|c s]; [congruence|].
  unfold POST, getVerificationRequestsByValue, respond, Date_now, get_db, lift.
  unfold bind, try_catch, ret.
  rewrite Hb, Hp, Hre. cbv beta iota zeta delta [negb].
  rewrite Hf, Hcall. cbv beta iota zeta.
  rewrite Hscore. cbv beta iota zeta.
  rewrite Hvalid. cbv beta iota zeta.
  rewrite Hcreate. cbv beta iota zeta.
  rewrite Hid. simpl default. rewrite Hnow, Hupd. cbv beta iota zeta.
  rewrite Hcode, Hnow3, Hnow. reflexivity.
Qed.

(** The answer of the service cannot be scored (it is [null]): the
    handler answers 500, in the world the client left. *)
Lemma POST_scoring_failure request w v validationData w1 e :
  value_of request = Some v ->
  phoneRegex_test v = true ->
  ~ rate_limited E w Kind.phone v ->
  validatePhone E v w = (Returned validationData, w1) ->
  scoring validationData = Thrown e ->
  exists r, POST E request w = (Returned r, w1) /\ is_error 500 r.
Proof.
  intros Hv Hre Hprior Hcall Hscore.
  apply value_of_Some in Hv as (b & Hb & Hp).
  pose proof (find_recent_None E w Kind.phone v Hprior) as Hf.
  pose proof (phoneRegex_nonempty v Hre) as Hne.
  destruct v as [|c s]; [congruence|].
  unfold POST, getVerificationRequestsByValue, respond, Date_now, get_db, lift.
  unfold bind, try_catch, ret.
  rewrite Hb, Hp, Hre. cbv beta iota zeta delta [negb].
  rewrite Hf, Hcall. cbv beta iota zeta.
  rewrite Hscore.
  eexists; split; [reflexivity | eexists; reflexivity].
Qed.

(** The request carries no string under [phone]: the world is left as
    it was. *)
Lemma POST_no_value request w :
  value_of request = None -> snd (POST E request w) = w.
Proof.
  unfold value_of, POST, respond, Date_now, lift. unfold bind, try_catch, ret.
  destruct (Next.body request) as [b|]; [|reflexivity].
  destruct (prop b "phone") as [x|e]; [|reflexivity].
  destruct x as [j|]; [|reflexivity].
  destruct j as [| | |[|c s]| |]; try reflexivity. discriminate.
Qed.

Lemma find_recent_prior w k v a :
  List.find (recent E (now w)) (map of_row (select_by_value (db w) k v)) = Some a ->
  rate_limited E w k v.
Proof.
  intros Hf. apply find_some in Hf as [Hin Hrec].
  apply in_map_iff in Hin as (r & <- & Hin).
  apply In_select_by_value in Hin as ([id Hid] & Hk & Hv).
  rewrite recent_of_row in Hrec. apply Z.ltb_lt in Hrec.
  exists id, r. auto.
Qed.

Lemma find_recent_not_prior w k v :
  List.find (recent E (now w)) (map of_row (select_by_value (db w) k v)) = None ->
  ~ rate_limited E w k v.
Proof.
  intros Hf Hp. destruct (find_recent_Some E w k v Hp) as [a Ha]. congruence.
Qed.

(** What a request does to the table: nothing, or the insertion of one
    row of kind phone with a value the regular expression accepts,
    followed by an update of this row. *)
Lemma POST_table request w :
  db (snd (POST E request w)) = db w
  \/ exists v validationData valid q rl w1 created w2 w3,
       phoneRegex_test v = true
       /\ db w1 = db w
       /\ createVerificationRequest E
            (new_request request v validationData valid q rl) w1
          = (Returned created, w2)
       /\ updateVerificationRequest (seq (db w1) + 1)
            (response_time (now w1 - now w)) w2
          = (Returned tt, w3)
       /\ snd (POST E request w) = w3.
Proof.
  destruct (value_of request) as [v|] eqn:Hv;
    [|left; now rewrite POST_no_value].
  destruct (phoneRegex_test v) eqn:Hre.
  2:{ left. apply value_of_Some in Hv as (b & Hb & Hp).
      destruct (POST_invalid E request w b (Some (JStr v)) Hb Hp) as (r & Hr & _).
      - intros v' [= <-]. exact Hre.
      - now rewrite Hr. }
  destruct (List.find (recent E (now w))
              (map of_row (select_by_value (db w) Kind.phone v))) as [a|] eqn:Hf.
  { left. apply find_recent_prior in Hf.
    destruct (POST_rate_limited request w v Hv Hre Hf) as (r & Hr & _).
    now rewrite Hr. }
  apply find_recent_not_prior in Hf.
  pose proof (external_validatePhone E v w) as [Hdb _].
  destruct (validatePhone E v w) as [[validationData|e] w1] eqn:Hcall;
    simpl in Hdb.
  2:{ left. destruct (POST_external_failure request w v e w1 Hv Hre Hf Hcall)
        as (r & Hr & _). now rewrite Hr. }
  destruct (scoring validationData) as [[q rl]|e] eqn:Hscore.
  2:{ left. destruct (POST_scoring_failure request w v validationData w1 e
                        Hv Hre Hf Hcall Hscore) as (r & Hr & _).
      now rewrite Hr. }
  right.
  destruct (POST_success request w v validationData w1 q rl Hv Hre Hf Hcall Hscore)
    as (valid & created & w2 & w3 & _ & Hcreate & Hupd & Hr).
  exists v, validationData, valid, q, rl, w1, created, w2, w3.
  rewrite Hr. auto.
Qed.

(** The requests keep the rows of kind phone valid. *)
Lemma POST_keeps_phone_rows_valid request w :
  phone_rows_valid (db w) -> phone_rows_valid (db (snd (POST E request w))).
Proof.
  intros Hinv.
  destruct (POST_table request w)
    as [-> | (v & vd & valid & q & rl & w1 & created & w2 & w3
              & Hre & Hdb & Hcreate & Hupd & ->)]; [exact Hinv|].
  destruct (createVerificationRequest_Returned E _ _ _ _ Hcreate)
    as (ty & va & r & Hty & Hva & Hdb2 & _ & _ & _ & _ & Hr).
  simpl in Hty, Hva. injection Hty as <-. injection Hva as <-.
  destruct (updateVerificationRequest_spec (seq (db w1) + 1)
              (response_time (now w1 - now w)) w2)
    as (w3' & Hupd' & _ & _ & _ & Hother & _ & Hsame).
  rewrite Hupd in Hupd'. injection Hupd' as <-.
  intros id r0 Hlook Hkind.
  destruct (decide (id = seq (db w1) + 1)) as [->|Hne].
  - destruct (Hsame r) as (r' & Hr' & Hu).
    { rewrite Hdb2. simpl. apply lookup_insert_eq. }
    rewrite Hr' in Hlook. injection Hlook as <-.
    destruct Hu as (_ & _ & Hval & _). rewrite Hval, Hr. exact Hre.
  - rewrite (Hother id Hne), Hdb2 in Hlook. simpl in Hlook.
    rewrite lookup_insert_ne in Hlook by congruence.
    rewrite Hdb in Hlook. eapply Hinv; eauto.
Qed.

Lemma empty_store_phone_rows_valid : phone_rows_valid empty_store.
Proof. intros id r Hr. simpl in Hr. now rewrite lookup_empty in Hr. Qed.

End Accepted.

(** ** The claims about the handler *)

Section Claims_handler.

Context (E : env).

(** C7, as amended. A phone request whose value does not match the
    loose pattern -- an optional leading [+], then at least 10
    characters, each a digit, a white-space character of the class [\s],
    a hyphen or a parenthesis -- is answered 400, and nothing else
    happens: no record is created and no external call is made.  The
    value [x] is what the body holds under [phone]: a string that does
    not match, something that is no string, or nothing. *)
Theorem invalid_phone_is_rejected (request : Next.NextRequest) (w : world)
  (b : json) (x : option json) :
  Next.body request = Some b ->
  prop b "phone" = Returned x ->
  (forall v, x = Some (JStr v) -> ~ loose_pattern is_space v) ->
  exists r w',
    POST E request w = (Returned r, w')
    /\ is_error 400 r
    /\ w' = w
    /\ db w' = db w
    /\ fetches w' = fetches w.
Proof.
  intros Hb Hp Hno.
  destruct (POST_invalid E request w b x Hb Hp) as (r & Hr & He).
  - intros v Hx.
    destruct (phoneRegex_test v) eqn:Hre; [|reflexivity].
    exfalso. now apply (Hno v Hx), phoneRegex_test_loose_pattern.
  - exists r, w. auto.
Qed.

End Claims_handler.

Lemma invalid_phone_is_rejected_witness :
  Next.body (phone_request (js "abc"))
  = Some (JObj [("phone"%string, JStr (js "abc"))])
  /\ prop (JObj [("phone"%string, JStr (js "abc"))]) "phone"
     = Returned (Some (JStr (js "abc")))
  /\ ~ loose_pattern is_space (js "abc")
  /\ exists r w',
       POST answering (phone_request (js "abc")) world0 = (Returned r, w')
       /\ is_error 400 r
       /\ w' = world0
       /\ db w' = db world0
       /\ fetches w' = fetches world0.
Proof.
  assert (Hno : ~ loose_pattern is_space (js "abc")).
  { intros H. apply phoneRegex_test_loose_pattern in H. discriminate H. }
  split; [reflexivity|]. split; [reflexivity|]. split; [exact Hno|].
  apply (invalid_phone_is_rejected answering (phone_request (js "abc")) world0
           (JObj [("phone"%string, JStr (js "abc"))])
           (Some (JStr (js "abc"))) eq_refl eq_refl).
  intros v [= <-]. exact Hno.
Defined.

(** C7, as stated, fails: the value of ten digits and a tab does not
    match the pattern when only the space character counts as a space,
    and the request is not answered 400. *)
Lemma tabbed_phone_is_accepted :
  ~ (~ loose_pattern space_only tabbed ->
     exists r w',
       POST answering (phone_request tabbed) world0 = (Returned r, w')
       /\ is_error 400 r
       /\ w' = world0).
Proof.
  intros H.
  destruct H as (r & w' & Hrun & (msg & ->) & _).
  - intros (rest & [<- | Hplus] & _ & Hall); discriminate.
  - apply (f_equal
             (fun p => match fst p with
                       | Returned x => Next.http_status x
                       | Thrown _ => 0
                       end)) in Hrun.
    vm_compute in Hrun. discriminate Hrun.
Qed.

Section Claims_pipeline.

Context (E : env).

(** In a zone of UTC, when the table holds a prior attempt on the phone
    value of the request, made within the last 5 minutes, the request is
    answered 429 and nothing else happens: no record is created and no
    external call is made.  The table is one the handler keeps: its rows
    of kind phone hold values that passed the validation of the input. *)
Lemma rate_limit_in_UTC (request : Next.NextRequest) (w : world) (v : jsstring) :
  UTC E ->
  phone_rows_valid (db w) ->
  value_of request = Some v ->
  prior_attempt w Kind.phone v ->
  exists r w',
    POST E request w = (Returned r, w')
    /\ is_error 429 r
    /\ db w' = db w
    /\ fetches w' = fetches w
    /\ w' = w.
Proof.
  intros Hutc Hinv Hv Hprior.
  assert (Hre : phoneRegex_test v = true).
  { destruct Hprior as (id & r & Hr & Hk & Hval & _).
    rewrite <- Hval. eapply Hinv; eauto. }
  apply (rate_limited_UTC E w Kind.phone v Hutc) in Hprior.
  destruct (POST_rate_limited E request w v Hv Hre Hprior) as (r & Hr & He).
  exists r, w. auto.
Qed.

(** C1, as amended. For a request that passed the validation of its
    input and the rate limit, the handler calls the external client
    before it creates any record: the call leaves the table as it was.
    When the call fails for good the answer is 502, no record has been
    created and none is updated. *)
Theorem external_failure_creates_no_record (request : Next.NextRequest)
  (w : world) (v : jsstring) (o : outcome json) (w1 : world) :
  value_of request = Some v ->
  phoneRegex_test v = true ->
  ~ rate_limited E w Kind.phone v ->
  validatePhone E v w = (o, w1) ->
  external_only w w1
  /\ (forall e, o = Thrown e ->
      exists r,
        POST E request w = (Returned r, w1)
        /\ is_error 502 r
        /\ db w1 = db w).
Proof.
  intros Hv Hre Hprior Hcall.
  pose proof (external_validatePhone E v w) as Hext.
  rewrite Hcall in Hext. simpl in Hext.
  split; [exact Hext|].
  intros e ->.
  destruct (POST_external_failure E request w v e w1 Hv Hre Hprior Hcall)
    as (r & Hr & He).
  exists r. destruct Hext as [Hdb _]. auto.
Qed.

(** C9. A row is inserted with NULL for api_response_time when the
    request gives 0 for it, and with NULL for quality_score when the
    request gives 0 for it.  The handler gives 0 for api_response_time:
    the row it inserts has none, until the update that follows writes
    the measured time. *)
Theorem zero_is_stored_as_null (w : world) :
  (forall request created w',
      createVerificationRequest E request w = (Returned created, w') ->
      exists r,
        rows (db w') !! (seq (db w) + 1) = Some r
        /\ (VerificationRequest.api_response_time request = Some 0 ->
            Schema.api_response_time r = None)
        /\ (forall q, VerificationRequest.quality_score request = Some q ->
                      (q == 0)%Q -> Schema.quality_score r = None))
  /\ (forall request v validationData valid q rl,
        VerificationRequest.api_response_time
          (new_request request v validationData valid q rl) = Some 0
        /\ exists created w1 r,
             createVerificationRequest E
               (new_request request v validationData valid q rl) w
             = (Returned created, w1)
             /\ VerificationRequest.id created = Some (seq (db w) + 1)
             /\ rows (db w1) !! (seq (db w) + 1) = Some r
             /\ Schema.api_response_time r = None
             /\ forall responseTime,
                  exists w2 r',
                    updateVerificationRequest (seq (db w) + 1)
                      (response_time responseTime) w1
                    = (Returned tt, w2)
                    /\ rows (db w2) !! (seq (db w) + 1) = Some r'
                    /\ Schema.api_response_time r' = Some responseTime).
Proof.
  split.
  - intros request created w' Hrun.
    destruct (createVerificationRequest_Returned E request w created w' Hrun)
      as (ty & va & r & _ & _ & Hdb & _ & _ & _ & _ & Hr).
    exists r. rewrite Hdb. simpl. rewrite lookup_insert_eq.
    split; [reflexivity|]. rewrite Hr. simpl. split.
    + intros ->. reflexivity.
    + intros q -> Hq. unfold or_null_Q.
      unfold Qeq in Hq. simpl in Hq.
      replace (Qnum q =? 0) with true; [reflexivity|].
      symmetry. apply Z.eqb_eq. lia.
  - intros request v validationData valid q rl.
    split; [reflexivity|].
    destruct (createVerificationRequest_total E
                (new_request request v validationData valid q rl) w Kind.phone v
                eq_refl eq_refl) as (created & w1 & Hcreate).
    destruct (createVerificationRequest_Returned E _ _ _ _ Hcreate)
      as (ty & va & r & _ & _ & Hdb & _ & _ & Hid & _ & Hr).
    exists created, w1, r.
    split; [exact Hcreate|]. split; [exact Hid|].
    assert (Hrow : rows (db w1) !! (seq (db w) + 1) = Some r).
    { rewrite Hdb. simpl. apply lookup_insert_eq. }
    split; [exact Hrow|]. split; [now rewrite Hr|].
    intros responseTime.
    destruct (updateVerificationRequest_spec (seq (db w) + 1)
                (response_time responseTime) w1)
      as (w2 & Hupd & _ & _ & _ & _ & _ & Hsame).
    destruct (Hsame r Hrow) as (r' & Hr' & Hu).
    exists w2, r'. split; [exact Hupd|]. split; [exact Hr'|].
    destruct Hu as (_ & _ & _ & _ & _ & _ & _ & _ & _ & _ & Hrt & _).
    exact Hrt.
Qed.

End Claims_pipeline.

Lemma zero_is_stored_as_null_witness :
  let run := createVerificationRequest answering zeros world0 in
  VerificationRequest.api_response_time zeros = Some 0
  /\ VerificationRequest.quality_score zeros = Some 0%Q
  /\ exists r,
       rows (db (snd run)) !! (seq (db world0) + 1) = Some r
       /\ Schema.api_response_time r = None
       /\ Schema.quality_score r = None.
Proof.
  intros run.
  split; [reflexivity|]. split; [reflexivity|].
  destruct (zero_is_stored_as_null answering world0) as [Hinsert _].
  destruct (Hinsert zeros (returned VerificationRequest.empty (fst run)) (snd run))
    as (r & Hr & Hrt & Hqs); [reflexivity|].
  exists r. split; [exact Hr|]. split.
  - apply Hrt. reflexivity.
  - apply (Hqs 0%Q); reflexivity.
Defined.

(** C3, at the failing input: the zone of the server is not UTC.  In a
    zone 5 hours ahead of UTC a request is answered 200 and recorded; the
    same request, made again at once, has that attempt in the table,
    made within the last 5 minutes, and is answered 200 all the same,
    after a second external call and with a second record.  The route
    reads the time of the attempt, a text of UTC without a zone, as
    local time: 5 hours before the attempt was made. *)
Theorem recent_attempt_is_not_limited_off_UTC :
  let first := POST karachi (phone_request a_phone) world0 in
  let second := POST karachi (phone_request a_phone) (snd first) in
  status_of (fst first) = Some 200
  /\ prior_attempt (snd first) Kind.phone a_phone
  /\ ~ rate_limited karachi (snd first) Kind.phone a_phone
  /\ status_of (fst second) = Some 200
  /\ fetches (snd second) = (fetches (snd first) + 1)%nat
  /\ size (rows (db (snd second))) = S (size (rows (db (snd first)))).
Proof.
  intros first second.
  split; [vm_compute; reflexivity|].
  split.
  { exists 1. eexists. split; [vm_compute; reflexivity|].
    split; [reflexivity|]. split; [reflexivity|]. vm_compute. reflexivity. }
  split.
  { apply (find_recent_not_prior karachi). vm_compute. reflexivity. }
  split; [vm_compute; reflexivity|].
  split; vm_compute; reflexivity.
Qed.

Lemma world0_not_rate_limited E v : ~ rate_limited E world0 Kind.phone v.
Proof. intros (id & r & Hr & _). simpl in Hr. now rewrite lookup_empty in Hr. Qed.

Lemma outage_call_fails :
  exists e, fst (validatePhone outage a_phone world0) = Thrown e.
Proof. vm_compute. eauto. Qed.

Lemma external_failure_creates_no_record_witness :
  let run := validatePhone outage a_phone world0 in
  value_of (phone_request a_phone) = Some a_phone
  /\ phoneRegex_test a_phone = true
  /\ ~ rate_limited outage world0 Kind.phone a_phone
  /\ external_only world0 (snd run)
  /\ exists e r,
       fst run = Thrown e
       /\ POST outage (phone_request a_phone) world0 = (Returned r, snd run)
       /\ is_error 502 r
       /\ db (snd run) = db world0.
Proof.
  intros run.
  assert (Hv : value_of (phone_request a_phone) = Some a_phone) by reflexivity.
  assert (Hre : phoneRegex_test a_phone = true) by reflexivity.
  pose proof (world0_not_rate_limited outage a_phone) as Hprior.
  split; [exact Hv|]. split; [exact Hre|]. split; [exact Hprior|].
  destruct (external_failure_creates_no_record outage (phone_request a_phone)
              world0 a_phone (fst run) (snd run) Hv Hre Hprior
              (surjective_pairing run)) as [Hext Hfail].
  split; [exact Hext|].
  destruct outage_call_fails as [e He].
  destruct (Hfail e He) as (r & Hr).
  exists e, r. split; [exact He | exact Hr].
Defined.

(** C1, as stated, fails: the service is down, the request is answered
    502, and the table holds no pending record of the value. *)
Lemma outage_leaves_no_pending_record :
  ~ (value_of (phone_request a_phone) = Some a_phone ->
     phoneRegex_test a_phone = true ->
     ~ rate_limited outage world0 Kind.phone a_phone ->
     (exists e w1, validatePhone outage a_phone world0 = (Thrown e, w1)) ->
     exists r w',
       POST outage (phone_request a_phone) world0 = (Returned r, w')
       /\ is_error 502 r
       /\ pending_record w' a_phone).
Proof.
  intros H.
  destruct (validatePhone outage a_phone world0) as [o w1] eqn:Hcall.
  assert (Ho : exists e, o = Thrown e).
  { apply (f_equal fst) in Hcall. vm_compute in Hcall. subst o. eauto. }
  destruct Ho as [e ->].
  pose proof (external_validatePhone outage a_phone world0) as [Hdb _].
  rewrite Hcall in Hdb. simpl in Hdb.
  destruct (POST_external_failure outage (phone_request a_phone) world0 a_phone
              e w1 eq_refl eq_refl (world0_not_rate_limited outage a_phone) Hcall)
    as (r502 & Hrun & _).
  destruct H as (r & w' & Hrun' & _ & (id & row & Hrow & _)).
  - reflexivity.
  - reflexivity.
  - apply world0_not_rate_limited.
  - eauto.
  - rewrite Hrun in Hrun'. injection Hrun' as _ <-.
    rewrite Hdb in Hrow. simpl in Hrow. now rewrite lookup_empty in Hrow.
Qed.

(** ** The scoring of a phone validation *)

Lemma is_string_eq lit t : is_string lit t = true <-> t = Some (JStr (js lit)).
Proof.
  unfold is_string. destruct t as [[| | |s| |]|]; try (split; discriminate).
  rewrite jsstring_eqb_eq. split; congruence.
Qed.

Lemma is_string_neq lit t : t <> Some (JStr (js lit)) -> is_string lit t = false.
Proof.
  intros H. destruct (is_string lit t) eqn:Hs; [|reflexivity].
  now apply is_string_eq in Hs.
Qed.

(** C4. The scoring of a phone validation, by the first rule that
    matches: not valid, 0.1 and high; type Mobile, 0.9 and low; type
    Landline, 0.7 and low; type Toll_Free or Unknown, 0.5 and medium;
    any other type of a valid number, 0.8 and low. *)
Theorem phone_scoring_table (validationData : json) (valid type : option json) :
  prop validationData "valid" = Returned valid ->
  prop validationData "type" = Returned type ->
  (truthy valid = false ->
   scoring validationData = Returned ((1 # 10)%Q, high))
  /\ (truthy valid = true ->
      (type = Some (JStr (js "Mobile")) ->
       scoring validationData = Returned ((9 # 10)%Q, low))
      /\ (type = Some (JStr (js "Landline")) ->
          scoring validationData = Returned ((7 # 10)%Q, low))
      /\ (type = Some (JStr (js "Toll_Free")) \/ type = Some (JStr (js "Unknown")) ->
          scoring validationData = Returned ((5 # 10)%Q, medium))
      /\ (type <> Some (JStr (js "Mobile")) ->
          type <> Some (JStr (js "Landline")) ->
          type <> Some (JStr (js "Toll_Free")) ->
          type <> Some (JStr (js "Unknown")) ->
          scoring validationData = Returned ((8 # 10)%Q, low))).
Proof.
  intros Hvalid Htype. unfold scoring. rewrite Hvalid, Htype.
  split.
  - intros ->. reflexivity.
  - intros ->. simpl negb. cbv iota.
    split; [|split; [|split]].
    + intros ->. reflexivity.
    + intros ->. reflexivity.
    + intros [-> | ->]; reflexivity.
    + intros H1 H2 H3 H4.
      now rewrite !is_string_neq by assumption.
Qed.

Lemma phone_scoring_table_witness :
  prop mobile "valid" = Returned (Some (JBool true))
  /\ prop mobile "type" = Returned (Some (JStr (js "Mobile")))
  /\ scoring mobile = Returned ((9 # 10)%Q, low).
Proof.
  assert (Hvalid : prop mobile "valid" = Returned (Some (JBool true)))
    by reflexivity.
  assert (Htype : prop mobile "type" = Returned (Some (JStr (js "Mobile"))))
    by reflexivity.
  split; [exact Hvalid|]. split; [exact Htype|].
  destruct (phone_scoring_table mobile _ _ Hvalid Htype) as [_ Hrules].
  destruct (Hrules eq_refl) as [Hmobile _].
  exact (Hmobile eq_refl).
Defined.

(** ** The external client: one round *)

Section Rounds.

Context (E : env).

Lemma fetch_run w :
  fetch E w =
  let x := net E (fetches w) in
  if timeout <=? elapsed x then (Thrown AbortError, after w timeout [EFetch])
  else
    match result x with
    | NetworkFailure msg => (Thrown (TypeError msg), after w (elapsed x) [EFetch])
    | Response st tx pa =>
        (Returned {| status := st; text := tx; parsed := pa |},
         after w (elapsed x) [EFetch])
    end.
Proof.
  unfold fetch, bind, emit, advance, throw, ret, after. simpl.
  destruct (timeout <=? elapsed (net E (fetches w))); [reflexivity|].
  destruct (result (net E (fetches w))); reflexivity.
Qed.

Lemma sleep_run delay w :
  sleep delay w = (Returned tt, after w delay [ESleep delay]).
Proof. reflexivity. Qed.

Lemma after_after w a es b es' :
  after (after w a es) b es' = after w (a + b) (es ++ es').
Proof. unfold after. simpl. now rewrite Z.add_assoc, <- app_assoc. Qed.

Lemma fetches_after w ms es :
  fetches (after w ms es) = (fetches w + length (List.filter is_fetch es))%nat.
Proof.
  unfold fetches, after. simpl. now rewrite List.filter_app, List.length_app.
Qed.

Lemma sleeps_of_app l l' : sleeps_of (l ++ l') = sleeps_of l ++ sleeps_of l'.
Proof.
  induction l as [|e l IH]; [reflexivity|].
  destruct e; simpl; now rewrite IH.
Qed.

Lemma sleeps_after w ms es : sleeps (after w ms es) = sleeps w ++ sleeps_of es.
Proof. unfold sleeps, after. simpl. apply sleeps_of_app. Qed.

Lemma named_AbortError : named "AbortError" AbortError = true.
Proof. reflexivity. Qed.

Lemma named_TypeError msg : named "TypeError" (TypeError msg) = true.
Proof. reflexivity. Qed.

Lemma named_AbortError_TypeError msg : named "AbortError" (TypeError msg) = false.
Proof. reflexivity. Qed.

Lemma not_ok_of_retryable st :
  (500 <=? st) || (st =? 429) = true ->
  ok {| status := st; text := []; parsed := None |} = false
  /\ (400 <=? st) && (st <? 500) && negb (st =? 429) = false.
Proof.
  intros H. unfold ok. simpl.
  apply orb_true_iff in H as [H|H].
  - apply Z.leb_le in H.
    replace (st <=? 299) with false by (symmetry; apply Z.leb_gt; lia).
    replace (st <? 500) with false by (symmetry; apply Z.ltb_ge; lia).
    now rewrite !andb_false_r.
  - apply Z.eqb_eq in H. subst st. split; reflexivity.
Qed.

Ltac close_round :=
  simpl; unfold ret, throw, after; simpl;
  rewrite <- ?app_assoc, <- ?Z.add_assoc; simpl; eauto.

(** A retryable failure in a round that is not the last: the client
    waits [backoff attempt] and goes on to the next round. *)
Lemma validatePhone_round_retry phone attempt w :
  (attempt =? maxRetries) = false ->
  retryable (net E (fetches w)) = true ->
  exists ms,
    validatePhone_round E phone attempt w
    = (Returned Continue, after w ms [EFetch; ESleep (backoff attempt)]).
Proof.
  intros Hlast Hretry.
  unfold validatePhone_round, try_catch, bind. rewrite fetch_run.
  unfold retryable in Hretry. cbv zeta.
  destruct (timeout <=? elapsed (net E (fetches w))).
  { rewrite named_AbortError, Hlast. close_round. }
  simpl in Hretry.
  destruct (result (net E (fetches w))) as [msg|st tx pa].
  { rewrite named_AbortError_TypeError, named_TypeError, Hlast. close_round. }
  destruct (not_ok_of_retryable st Hretry) as [Hok _].
  unfold ok in *. simpl in *. rewrite Hok, Hlast. close_round.
Qed.

(** A retryable failure in the last round: the client throws, without a
    wait. *)
Lemma validatePhone_round_last phone w :
  retryable (net E (fetches w)) = true ->
  exists e ms,
    validatePhone_round E phone maxRetries w = (Thrown e, after w ms [EFetch]).
Proof.
  intros Hretry.
  unfold validatePhone_round, try_catch, bind. rewrite fetch_run.
  unfold retryable in Hretry. cbv zeta.
  destruct (timeout <=? elapsed (net E (fetches w))).
  { rewrite named_AbortError. close_round. }
  simpl in Hretry.
  destruct (result (net E (fetches w))) as [msg|st tx pa].
  { rewrite named_AbortError_TypeError, named_TypeError. close_round. }
  destruct (not_ok_of_retryable st Hretry) as [Hok _].
  unfold ok in *. simpl in *. rewrite Hok. close_round.
Qed.

(** An answer in time, of a status 2xx and with a body of JSON: the
    client returns the body, whatever it holds. *)
Lemma validatePhone_round_answer phone attempt w data :
  answers (net E (fetches w)) data ->
  exists ms,
    validatePhone_round E phone attempt w
    = (Returned (Return data), after w ms [EFetch]).
Proof.
  intros (Htime & st & tx & Hres & Hst).
  unfold validatePhone_round, try_catch, bind. rewrite fetch_run. cbv zeta.
  replace (timeout <=? elapsed (net E (fetches w))) with false
    by (symmetry; apply Z.leb_gt; lia).
  rewrite Hres. unfold ok. simpl.
  replace (200 <=? st) with true by (symmetry; apply Z.leb_le; lia).
  replace (st <=? 299) with true by (symmetry; apply Z.leb_le; lia).
  close_round.
Qed.

End Rounds.

Section Email_rounds.

Context (E : env).
Hypothesis key_configured : truthy (JStr <$> ABSTRACT_EMAIL_API_KEY E) = true.

Ltac close_round :=
  simpl; unfold ret, throw, after; simpl;
  rewrite <- ?app_assoc, <- ?Z.add_assoc; simpl; eauto.

Lemma validateEmail_round_retry email attempt w :
  (attempt =? maxRetries) = false ->
  retryable (net E (fetches w)) = true ->
  exists ms,
    validateEmail_round E email attempt w
    = (Returned Continue, after w ms [EFetch; ESleep (backoff attempt)]).
Proof.
  intros Hlast Hretry.
  unfold validateEmail_round, try_catch. rewrite key_configured.
  change (negb true) with false. unfold bind. cbv beta iota.
  rewrite fetch_run.
  unfold retryable in Hretry. cbv zeta.
  destruct (timeout <=? elapsed (net E (fetches w))).
  { rewrite named_AbortError, Hlast. close_round. }
  simpl in Hretry.
  destruct (result (net E (fetches w))) as [msg|st tx pa].
  { rewrite named_AbortError_TypeError, named_TypeError, Hlast. close_round. }
  destruct (not_ok_of_retryable st Hretry) as [Hok H4xx].
  unfold ok in *. simpl in *. rewrite Hok. simpl. rewrite H4xx, Hlast.
  close_round.
Qed.

Lemma validateEmail_round_last email w :
  retryable (net E (fetches w)) = true ->
  exists e ms,
    validateEmail_round E email maxRetries w = (Thrown e, after w ms [EFetch]).
Proof.
  intros Hretry.
  unfold validateEmail_round, try_catch. rewrite key_configured.
  change (negb true) with false. unfold bind. cbv beta iota.
  rewrite fetch_run.
  unfold retryable in Hretry. cbv zeta.
  destruct (timeout <=? elapsed (net E (fetches w))).
  { rewrite named_AbortError. close_round. }
  simpl in Hretry.
  destruct (result (net E (fetches w))) as [msg|st tx pa].
  { rewrite named_AbortError_TypeError, named_TypeError. close_round. }
  destruct (not_ok_of_retryable st Hretry) as [Hok H4xx].
  unfold ok in *. simpl in *. rewrite Hok. simpl. rewrite H4xx. simpl.
  unfold throw.
  match goal with
  | |- context [includes ?p ?m] => destruct (includes p m)
  end; close_round.
Qed.

Lemma validateEmail_round_answer email attempt w data :
  answers (net E (fetches w)) data ->
  email_fields_present data ->
  exists ms,
    validateEmail_round E email attempt w
    = (Returned (Return data), after w ms [EFetch]).
Proof.
  intros (Htime & st & tx & Hres & Hst) (a & d & Ha & Hd & Hta & Htd).
  unfold validateEmail_round, try_catch. rewrite key_configured.
  change (negb true) with false. unfold bind. cbv beta iota.
  rewrite fetch_run. cbv zeta.
  replace (timeout <=? elapsed (net E (fetches w))) with false
    by (symmetry; apply Z.leb_gt; lia).
  rewrite Hres. unfold ok. simpl.
  replace (200 <=? st) with true by (symmetry; apply Z.leb_le; lia).
  replace (st <=? 299) with true by (symmetry; apply Z.leb_le; lia).
  simpl. unfold lift. rewrite Ha, Hd, Hta, Htd. close_round.
Qed.

(** A body of JSON without the required fields, in a round that is not
    the last: on to the next round, at once. *)
Lemma validateEmail_round_malformed email attempt w data :
  (attempt =? maxRetries) = false ->
  answers (net E (fetches w)) data ->
  email_fields_missing data ->
  exists ms,
    validateEmail_round E email attempt w
    = (Returned Continue, after w ms [EFetch]).
Proof.
  intros Hlast (Htime & st & tx & Hres & Hst) (a & d & Ha & Hd & Hmiss).
  unfold validateEmail_round, try_catch. rewrite key_configured.
  change (negb true) with false. unfold bind. cbv beta iota.
  rewrite fetch_run. cbv zeta.
  replace (timeout <=? elapsed (net E (fetches w))) with false
    by (symmetry; apply Z.leb_gt; lia).
  rewrite Hres. unfold ok. simpl.
  replace (200 <=? st) with true by (symmetry; apply Z.leb_le; lia).
  replace (st <=? 299) with true by (symmetry; apply Z.leb_le; lia).
  simpl. unfold lift. rewrite Ha, Hd.
  replace (negb (truthy a) || negb (truthy d)) with true
    by (destruct Hmiss as [-> | ->]; simpl; now rewrite ?orb_true_r).
  rewrite Hlast. close_round.
Qed.

(** The same in the last round: the client throws. *)
Lemma validateEmail_round_malformed_last email w data :
  answers (net E (fetches w)) data ->
  email_fields_missing data ->
  exists e ms,
    validateEmail_round E email maxRetries w = (Thrown e, after w ms [EFetch]).
Proof.
  intros (Htime & st & tx & Hres & Hst) (a & d & Ha & Hd & Hmiss).
  unfold validateEmail_round, try_catch. rewrite key_configured.
  change (negb true) with false. unfold bind. cbv beta iota.
  rewrite fetch_run. cbv zeta.
  replace (timeout <=? elapsed (net E (fetches w))) with false
    by (symmetry; apply Z.leb_gt; lia).
  rewrite Hres. unfold ok. simpl.
  replace (200 <=? st) with true by (symmetry; apply Z.leb_le; lia).
  replace (st <=? 299) with true by (symmetry; apply Z.leb_le; lia).
  simpl. unfold lift. rewrite Ha, Hd.
  replace (negb (truthy a) || negb (truthy d)) with true
    by (destruct Hmiss as [-> | ->]; simpl; now rewrite ?orb_true_r).
  close_round.
Qed.

End Email_rounds.

(** ** The external client: the loop *)

Section Chain.

Context (E : env) (round : Z -> M (step json)) (good : json -> Prop).

Hypothesis round_retry :
  forall attempt w,
    (attempt =? maxRetries) = false ->
    retryable (net E (fetches w)) = true ->
    exists ms,
      round attempt w
      = (Returned Continue, after w ms [EFetch; ESleep (backoff attempt)]).

Hypothesis round_last :
  forall w,
    retryable (net E (fetches w)) = true ->
    exists e ms, round maxRetries w = (Thrown e, after w ms [EFetch]).

Hypothesis round_answer :
  forall attempt w data,
    answers (net E (fetches w)) data ->
    good data ->
    exists ms, round attempt w = (Returned (Return data), after w ms [EFetch]).

Lemma fetches_after_round w ms d :
  fetches (after w ms [EFetch; ESleep d]) = S (fetches w).
Proof. rewrite fetches_after. simpl. lia. Qed.

Lemma chain_answer rounds k w data (after_ : M json) :
  (k < length rounds)%nat ->
  Forall (fun a => (a =? maxRetries) = false) (firstn k rounds) ->
  (forall i, (i < k)%nat -> retryable (net E (fetches w + i)) = true) ->
  answers (net E (fetches w + k)) data ->
  good data ->
  exists ms,
    for_each rounds round after_ w
    = (Returned data, after w ms (trail (firstn k rounds) ++ [EFetch])).
Proof.
  revert rounds w.
  induction k as [|k IH]; intros [|a rest] w Hlen Hnot Hretry Hans Hgood;
    simpl in Hlen; try lia.
  - rewrite Nat.add_0_r in Hans.
    destruct (round_answer a w data Hans Hgood) as [ms Hr].
    exists ms. simpl. unfold bind. now rewrite Hr.
  - simpl in Hnot. inversion Hnot as [|? ? Ha Hrest]; subst.
    assert (H0 : retryable (net E (fetches w)) = true).
    { rewrite <- (Nat.add_0_r (fetches w)). apply Hretry. lia. }
    destruct (round_retry a w Ha H0) as [ms Hr].
    destruct (IH rest (after w ms [EFetch; ESleep (backoff a)]))
      as [ms' Hrun]; try assumption.
    + lia.
    + intros i Hi. rewrite fetches_after_round.
      replace (S (fetches w) + i)%nat with (fetches w + S i)%nat by lia.
      apply Hretry. lia.
    + rewrite fetches_after_round.
      now replace (S (fetches w) + k)%nat with (fetches w + S k)%nat by lia.
    + exists (ms + ms'). simpl. unfold bind. rewrite Hr, Hrun.
      now rewrite after_after.
Qed.

Lemma chain_exhausted pre w (after_ : M json) :
  Forall (fun a => (a =? maxRetries) = false) pre ->
  (forall i, (i <= length pre)%nat -> retryable (net E (fetches w + i)) = true) ->
  exists e ms,
    for_each (pre ++ [maxRetries]) round after_ w
    = (Thrown e, after w ms (trail pre ++ [EFetch])).
Proof.
  revert w. induction pre as [|a pre IH]; intros w Hnot Hretry.
  - assert (H0 : retryable (net E (fetches w)) = true).
    { rewrite <- (Nat.add_0_r (fetches w)). apply Hretry. simpl. lia. }
    destruct (round_last w H0) as (e & ms & Hr).
    exists e, ms. simpl. unfold bind. now rewrite Hr.
  - inversion Hnot as [|? ? Ha Hrest]; subst.
    assert (H0 : retryable (net E (fetches w)) = true).
    { rewrite <- (Nat.add_0_r (fetches w)). apply Hretry. simpl. lia. }
    destruct (round_retry a w Ha H0) as [ms Hr].
    destruct (IH (after w ms [EFetch; ESleep (backoff a)]) Hrest)
      as (e & ms' & Hrun).
    + intros i Hi. rewrite fetches_after_round.
      replace (S (fetches w) + i)%nat with (fetches w + S i)%nat by lia.
      apply Hretry. simpl. lia.
    + exists e, (ms + ms'). simpl. unfold bind. rewrite Hr, Hrun.
      now rewrite after_after.
Qed.

End Chain.

Lemma fetches_trail w ms rounds :
  fetches (after w ms (trail rounds ++ [EFetch]))
  = (fetches w + length rounds + 1)%nat.
Proof.
  rewrite fetches_after.
  assert (H : length (List.filter is_fetch (trail rounds ++ [EFetch]))
              = (length rounds + 1)%nat).
  { induction rounds as [|a rounds IH]; [reflexivity|].
    simpl. now rewrite IH. }
  rewrite H. lia.
Qed.

Lemma sleeps_trail w ms rounds :
  sleeps (after w ms (trail rounds ++ [EFetch])) = sleeps w ++ map backoff rounds.
Proof.
  rewrite sleeps_after. f_equal.
  induction rounds as [|a rounds IH]; [reflexivity|].
  simpl. now rewrite IH.
Qed.

Lemma firstn_attempts k :
  (k <= 2)%nat ->
  firstn k (attempts 1 maxRetries) = attempts 1 (Z.of_nat k)
  /\ (k < length (attempts 1 maxRetries))%nat
  /\ Forall (fun a => (a =? maxRetries) = false) (firstn k (attempts 1 maxRetries)).
Proof.
  intros Hk. destruct k as [|[|[|k]]]; try lia;
    (split; [reflexivity | split; [simpl; lia | repeat constructor]]).
Qed.

Section Runs.

Context (E : env).

Lemma validatePhone_answer phone w k data :
  (k <= 2)%nat ->
  (forall i, (i < k)%nat -> retryable (net E (fetches w + i)) = true) ->
  answers (net E (fetches w + k)) data ->
  run_answer (validatePhone E phone) w k data.
Proof.
  intros Hk Hretry Hans.
  destruct (firstn_attempts k Hk) as (Hfirst & Hlen & Hnot).
  destruct (chain_answer E (validatePhone_round E phone) (fun _ => True)
              (validatePhone_round_retry E phone)
              (fun attempt w data Ha _ =>
                 validatePhone_round_answer E phone attempt w data Ha)
              (attempts 1 maxRetries) k w data
              (throw (Error (js "Failed to validate phone with Abstract API")))
              Hlen Hnot Hretry Hans I) as [ms Hrun].
  eexists. split; [exact Hrun|].
  rewrite fetches_trail, sleeps_trail, length_take, Hfirst.
  split; [simpl length; lia | reflexivity].
Qed.

Lemma validatePhone_exhausted phone w :
  (forall i, (i < 3)%nat -> retryable (net E (fetches w + i)) = true) ->
  run_exhausted (validatePhone E phone) w.
Proof.
  intros Hretry.
  destruct (chain_exhausted E (validatePhone_round E phone)
              (validatePhone_round_retry E phone)
              (validatePhone_round_last E phone)
              [1; 2] w
              (throw (Error (js "Failed to validate phone with Abstract API"))))
    as (e & ms & Hrun).
  - repeat constructor.
  - intros i Hi. apply Hretry. simpl in Hi. lia.
  - exists e. eexists. split; [exact Hrun|].
    rewrite fetches_trail, sleeps_trail. split; [simpl; lia | reflexivity].
Qed.

Hypothesis key_configured : truthy (JStr <$> ABSTRACT_EMAIL_API_KEY E) = true.

Lemma validateEmail_answer email w k data :
  (k <= 2)%nat ->
  (forall i, (i < k)%nat -> retryable (net E (fetches w + i)) = true) ->
  answers (net E (fetches w + k)) data ->
  email_fields_present data ->
  run_answer (validateEmail E email) w k data.
Proof.
  intros Hk Hretry Hans Hgood.
  destruct (firstn_attempts k Hk) as (Hfirst & Hlen & Hnot).
  destruct (chain_answer E (validateEmail_round E email) email_fields_present
              (validateEmail_round_retry E key_configured email)
              (validateEmail_round_answer E key_configured email)
              (attempts 1 maxRetries) k w data
              (throw (Error (js "Failed to validate email with Abstract API")))
              Hlen Hnot Hretry Hans Hgood) as [ms Hrun].
  eexists. split; [exact Hrun|].
  rewrite fetches_trail, sleeps_trail, length_take, Hfirst.
  split; [simpl length; lia | reflexivity].
Qed.

Lemma validateEmail_exhausted email w :
  (forall i, (i < 3)%nat -> retryable (net E (fetches w + i)) = true) ->
  run_exhausted (validateEmail E email) w.
Proof.
  intros Hretry.
  destruct (chain_exhausted E (validateEmail_round E email)
              (validateEmail_round_retry E key_configured email)
              (validateEmail_round_last E key_configured email)
              [1; 2] w
              (throw (Error (js "Failed to validate email with Abstract API"))))
    as (e & ms & Hrun).
  - repeat constructor.
  - intros i Hi. apply Hretry. simpl in Hi. lia.
  - exists e. eexists. split; [exact Hrun|].
    rewrite fetches_trail, sleeps_trail. split; [simpl; lia | reflexivity].
Qed.

End Runs.

(** ** The external client: at most three calls *)

Section Calls.

Context (E : env).

Lemma calls_ret {A} (a : A) : calls_at_most 0 (ret a).
Proof. intros w. simpl. lia. Qed.

Lemma calls_throw {A} e : calls_at_most 0 (@throw A e).
Proof. intros w. simpl. lia. Qed.

Lemma calls_lift {A} (o : outcome A) : calls_at_most 0 (lift o).
Proof. intros w. simpl. lia. Qed.

Lemma calls_sleep delay : calls_at_most 0 (sleep delay).
Proof. intros w. rewrite sleep_run. simpl. rewrite fetches_after. simpl. lia. Qed.

Lemma calls_response_json r : calls_at_most 0 (response_json r).
Proof. unfold response_json. destruct (parsed r); intros w; simpl; lia. Qed.

Lemma calls_fetch : calls_at_most 1 (fetch E).
Proof.
  intros w. rewrite fetch_run. cbv zeta.
  destruct (timeout <=? elapsed (net E (fetches w)));
    [|destruct (result (net E (fetches w)))];
    simpl; rewrite fetches_after; simpl; lia.
Qed.

Lemma calls_bind {A B} a b (m : M A) (k : A -> M B) :
  calls_at_most a m -> (forall x, calls_at_most b (k x)) ->
  calls_at_most (a + b) (bind m k).
Proof.
  intros Hm Hk w. unfold bind. specialize (Hm w).
  destruct (m w) as [[x|e] w1]; simpl in *; [|lia].
  specialize (Hk x w1). lia.
Qed.

Lemma calls_try_catch {A} a b (m : M A) h :
  calls_at_most a m -> (forall e, calls_at_most b (h e)) ->
  calls_at_most (a + b) (try_catch m h).
Proof.
  intros Hm Hh w. unfold try_catch. specialize (Hm w).
  destruct (m w) as [[x|e] w1]; simpl in *; [lia|].
  specialize (Hh e w1). lia.
Qed.

Lemma calls_weaken {A} a b (m : M A) :
  (a <= b)%nat -> calls_at_most a m -> calls_at_most b m.
Proof. intros Hab Hm w. specialize (Hm w). lia. Qed.

Lemma calls_for_each {A} rounds (round : Z -> M (step A)) after_ :
  (forall attempt, calls_at_most 1 (round attempt)) ->
  calls_at_most 0 after_ ->
  calls_at_most (length rounds) (for_each rounds round after_).
Proof.
  intros Hr Ha. induction rounds as [|attempt rest IH]; simpl; [exact Ha|].
  apply (calls_bind 1 (length rest)); [apply Hr|].
  intros [a|]; [|exact IH].
  eapply calls_weaken; [|apply calls_ret]. lia.
Qed.

(** Code without a [fetch]. *)
Ltac no_call :=
  repeat first
    [ apply calls_ret | apply calls_throw | apply calls_lift
    | apply calls_sleep | apply calls_response_json
    | apply (calls_bind 0 0); [|intros ?]
    | match goal with
      | |- calls_at_most 0 (if ?c then _ else _) => destruct c
      | |- calls_at_most 0 (match ?x with _ => _ end) => destruct x
      end ].

Lemma calls_validatePhone_round phone attempt :
  calls_at_most 1 (validatePhone_round E phone attempt).
Proof.
  unfold validatePhone_round.
  apply (calls_try_catch 1 0); [|intros error; no_call].
  apply (calls_bind 1 0); [apply calls_fetch | intros response; no_call].
Qed.

Lemma calls_validateEmail_round email attempt :
  calls_at_most 1 (validateEmail_round E email attempt).
Proof.
  unfold validateEmail_round.
  apply (calls_try_catch 1 0); [|intros error; no_call].
  destruct (negb (truthy (JStr <$> ABSTRACT_EMAIL_API_KEY E))).
  - eapply calls_weaken; [|apply calls_throw]. lia.
  - apply (calls_bind 1 0); [apply calls_fetch | intros response; no_call].
Qed.

Lemma calls_validatePhone phone : calls_at_most 3 (validatePhone E phone).
Proof.
  apply (calls_for_each (attempts 1 maxRetries));
    [apply calls_validatePhone_round | apply calls_throw].
Qed.

Lemma calls_validateEmail email : calls_at_most 3 (validateEmail E email).
Proof.
  apply (calls_for_each (attempts 1 maxRetries));
    [apply calls_validateEmail_round | apply calls_throw].
Qed.

End Calls.

(** ** The claims about the external client *)



(** C2, at the failing inputs.  The phone client retries after a 404: a
    service that answers 404 and then with a success is called twice and
    the handler answers 200; a service that always answers 404 is called
    3 times, with waits of 1000 and 2000 milliseconds, before the
    handler answers 502.  The email client throws at once on a 404 in
    its first attempt, but after a 404 in its second attempt it waits
    and tries again. *)
Theorem not_found_is_retried :
  (status_of (fst (POST not_found_once (phone_request a_phone) world0)) = Some 200
   /\ fetches (snd (POST not_found_once (phone_request a_phone) world0)) = 2%nat
   /\ sleeps (snd (POST not_found_once (phone_request a_phone) world0)) = [1000])
  /\ (status_of (fst (POST not_found (phone_request a_phone) world0)) = Some 502
      /\ fetches (snd (POST not_found (phone_request a_phone) world0)) = 3%nat
      /\ sleeps (snd (POST not_found (phone_request a_phone) world0))
         = [1000; 2000])
  /\ (data_of (fst (validateEmail not_found_first (js "test@example.com") world0))
      = None
      /\ fetches (snd (validateEmail not_found_first (js "test@example.com") world0))
         = 1%nat)
  /\ (data_of (fst (validateEmail not_found_second (js "test@example.com") world0))
      = Some deliverable
      /\ fetches (snd (validateEmail not_found_second (js "test@example.com") world0))
         = 3%nat
      /\ sleeps (snd (validateEmail not_found_second (js "test@example.com") world0))
         = [1000; 2000]).
Proof. vm_compute. repeat split. Qed.

(** C6, at the failing input.  The phone client returns a body of JSON
    without any of the fields of a phone validation as a success, after
    one call; the handler scores it as not valid, records it as failed
    and answers 200. *)
Theorem hollow_answer_is_a_success :
  data_of (fst (validatePhone hollow a_phone world0)) = Some (JObj [])
  /\ fetches (snd (validatePhone hollow a_phone world0)) = 1%nat
  /\ status_of (fst (POST hollow (phone_request a_phone) world0)) = Some 200
  /\ fetches (snd (POST hollow (phone_request a_phone) world0)) = 1%nat
  /\ (Schema.status
        <$> rows (db (snd (POST hollow (phone_request a_phone) world0))) !! 1)
     = Some failed.
Proof. vm_compute. repeat split. Qed.

(** ** What the email client does and the phone client does not *)

Section Email_checks.

Context (E : env).

Lemma for_each_Returned {A} rounds (round : Z -> M (step A)) after_ w a w' :
  for_each rounds round after_ w = (Returned a, w') ->
  (exists attempt w0 w1, round attempt w0 = (Returned (Return a), w1))
  \/ (exists w0, after_ w0 = (Returned a, w')).
Proof.
  revert w. induction rounds as [|attempt rest IH]; intros w; simpl.
  - intros H. right. eauto.
  - unfold bind. destruct (round attempt w) as [[[b|]|e] w1] eqn:Hr.
    + intros [= <- <-]. left. eauto.
    + apply IH.
    + discriminate.
Qed.

(** The email client returns a body only when the required fields are
    there. *)
Lemma validateEmail_round_Return email attempt w data w' :
  validateEmail_round E email attempt w = (Returned (Return data), w') ->
  email_fields_present data.
Proof.
  unfold validateEmail_round, try_catch, bind, lift, response_json, sleep,
    emit, advance, ret, throw.
  repeat (match goal with
          | |- context [if ?c then _ else _] => destruct c eqn:?
          | |- context [match fetch E ?w with _ => _ end] =>
              destruct (fetch E w) as [[?|?] ?]
          | |- context [match parsed ?r with _ => _ end] => destruct (parsed r)
          | |- context [match prop ?d ?k with _ => _ end] =>
              destruct (prop d k) eqn:?
          end; simpl; try discriminate).
  all: intros [= <- <-].
  all: match goal with
       | H : negb (truthy ?a) || negb (truthy ?d) = false |- _ =>
           apply orb_false_iff in H as [Ha Hd];
           apply negb_false_iff in Ha, Hd; exists a, d; auto
       end.
Qed.

Lemma validateEmail_Returned email w data w' :
  validateEmail E email w = (Returned data, w') -> email_fields_present data.
Proof.
  intros H. apply for_each_Returned in H
    as [(attempt & w0 & w1 & Hr) | (w0 & Hthrow)].
  - eapply validateEmail_round_Return; eauto.
  - discriminate Hthrow.
Qed.

End Email_checks.

(** A body without the required fields is asked for again, up to the
    three attempts, and then the email client throws. *)
Example hollow_email_is_an_error :
  data_of (fst (validateEmail hollow_email (js "test@example.com") world0)) = None
  /\ fetches (snd (validateEmail hollow_email (js "test@example.com") world0))
     = 3%nat
  /\ sleeps (snd (validateEmail hollow_email (js "test@example.com") world0)) = [].
Proof. vm_compute. repeat split. Qed.

(** The request with the tabbed value runs to the end: one external
    call, one row, the answer 200. *)
Example tabbed_phone_run :
  phoneRegex_test tabbed = true
  /\ status_of (fst (POST answering (phone_request tabbed) world0)) = Some 200
  /\ fetches (snd (POST answering (phone_request tabbed) world0)) = 1%nat
  /\ (Schema.value
        <$> rows (db (snd (POST answering (phone_request tabbed) world0))) !! 1)
     = Some tabbed.
Proof. vm_compute. repeat split. Qed.

(** * Further properties of the code *)

(** ** The record store: fresh ids and round trips *)

Lemma well_keyed_empty : well_keyed empty_store.
Proof. intros id r Hr. simpl in Hr. now rewrite lookup_empty in Hr. Qed.

Lemma well_keyed_fresh s : well_keyed s -> rows s !! (seq s + 1) = None.
Proof.
  intros Hk. destruct (rows s !! (seq s + 1)) as [r|] eqn:Hr; [|reflexivity].
  apply Hk in Hr as [_ Hle]. lia.
Qed.

Lemma createVerificationRequest_well_keyed E request w created w' :
  well_keyed (db w) ->
  createVerificationRequest E request w = (Returned created, w') ->
  well_keyed (db w').
Proof.
  intros Hk Hrun.
  destruct (createVerificationRequest_Returned E request w created w' Hrun)
    as (ty & va & r & _ & _ & Hdb & _ & _ & _ & _ & Hr).
  rewrite Hdb. intros id r0. simpl.
  destruct (decide (id = seq (db w) + 1)) as [->|Hne].
  - rewrite lookup_insert_eq. intros [= <-]. rewrite Hr. simpl. lia.
  - rewrite lookup_insert_ne by (intros Heq; apply Hne; now rewrite <- Heq).
    intros H0. apply Hk in H0 as [? ?]. lia.
Qed.

Lemma updateVerificationRequest_well_keyed id updates w :
  well_keyed (db w) ->
  well_keyed (db (snd (updateVerificationRequest id updates w))).
Proof.
  intros Hk.
  destruct (updateVerificationRequest_spec id updates w)
    as (w' & Hrun & _ & _ & Hseq & Hother & _ & Hsame).
  rewrite Hrun. simpl. intros id' r' Hr'.
  rewrite Hseq.
  destruct (decide (id' = id)) as [->|Hne].
  - destruct (rows (db w) !! id) as [r|] eqn:Hr.
    + destruct (Hsame r eq_refl) as (r2 & Hr2 & Hu).
      rewrite Hr2 in Hr'. injection Hr' as <-.
      destruct Hu as (Hid & _). rewrite Hid. now apply Hk.
    + assert (Hdb : db w' = db w).
      { destruct (updateVerificationRequest_spec id updates w)
          as (w2 & Hrun2 & _ & _ & _ & _ & Hnone & _).
        rewrite Hrun in Hrun2. injection Hrun2 as <-. now apply Hnone. }
      rewrite Hdb, Hr in Hr'. discriminate.
  - rewrite (Hother id' Hne) in Hr'. now apply Hk.
Qed.

(** X1. In a table whose ids are bounded by the counter of
    AUTOINCREMENT, [createVerificationRequest] takes an id that no row
    has, leaves every row of the table as it was, makes the table one
    row larger, and the ids stay bounded by the counter. *)
Theorem createVerificationRequest_fresh
  (E : env) (request created : VerificationRequest.t) (w w' : world) :
  well_keyed (db w) ->
  createVerificationRequest E request w = (Returned created, w') ->
  rows (db w) !! (seq (db w) + 1) = None
  /\ is_Some (rows (db w') !! (seq (db w) + 1))
  /\ (forall id r, rows (db w) !! id = Some r -> rows (db w') !! id = Some r)
  /\ size (rows (db w')) = S (size (rows (db w)))
  /\ seq (db w') = seq (db w) + 1
  /\ well_keyed (db w').
Proof.
  intros Hk Hrun.
  pose proof (well_keyed_fresh _ Hk) as Hfresh.
  pose proof (createVerificationRequest_well_keyed E _ _ _ _ Hk Hrun) as Hk'.
  destruct (createVerificationRequest_Returned E request w created w' Hrun)
    as (ty & va & r & _ & _ & Hdb & _).
  rewrite Hdb. simpl.
  split; [exact Hfresh|]. split; [rewrite lookup_insert_eq; eauto|].
  split; [|split; [|split]].
  - intros id r0 Hr0. rewrite lookup_insert_ne; [exact Hr0|].
    intros <-. congruence.
  - now apply map_size_insert_None.
  - reflexivity.
  - now rewrite Hdb in Hk'.
Qed.

Lemma POST_keeps_well_keyed E request w :
  well_keyed (db w) -> well_keyed (db (snd (POST E request w))).
Proof.
  intros Hk.
  destruct (POST_table E request w)
    as [-> | (v & vd & valid & q & rl & w1 & created & w2 & w3
              & _ & Hdb & Hcreate & Hupd & ->)]; [exact Hk|].
  rewrite <- Hdb in Hk.
  pose proof (createVerificationRequest_well_keyed E _ _ _ _ Hk Hcreate) as Hk2.
  pose proof (updateVerificationRequest_well_keyed (seq (db w1) + 1)
                (response_time (now w1 - now w)) w2 Hk2) as Hk3.
  now rewrite Hupd in Hk3.
Qed.

Lemma well_keyed_world1 : well_keyed (db world1).
Proof. apply POST_keeps_well_keyed, well_keyed_empty. Qed.

Lemma createVerificationRequest_fresh_witness :
  let run := createVerificationRequest answering zeros world1 in
  well_keyed (db world1)
  /\ rows (db world1) !! 2 = None
  /\ is_Some (rows (db (snd run)) !! 2)
  /\ size (rows (db (snd run))) = 2%nat.
Proof.
  intros run.
  destruct (createVerificationRequest_fresh answering zeros
              (returned VerificationRequest.empty (fst run)) world1 (snd run)
              well_keyed_world1 eq_refl) as (Hfresh & Hnew & _ & Hsize & _).
  split; [exact well_keyed_world1|]. split; [exact Hfresh|].
  split; [exact Hnew|].
  rewrite Hsize. vm_compute. reflexivity.
Defined.



(** ** The record store: the two updates *)

Lemma updated_row_unique t u r r1 r2 :
  updated_row t u r r1 -> updated_row t u r r2 -> r1 = r2.
Proof.
  unfold updated_row.
  destruct r1, r2. simpl.
  intros (? & ? & ? & ? & ? & ? & ? & ? & ? & ? & ? & ? & ? & ?)
         (? & ? & ? & ? & ? & ? & ? & ? & ? & ? & ? & ? & ? & ?).
  f_equal; congruence.
Qed.

(** X3. [updateVerificationStatus] does what [updateVerificationRequest]
    does with the status alone: the row of the id, when there is one,
    takes the status and the time of the update and keeps every other
    column, what [getVerificationRequest] then reads; when there is none
    the table is what it was and the read gives nothing. *)
Theorem updateVerificationStatus_as_update (id : Z) (st : Status) (w : world) :
  updateVerificationStatus id st w
  = updateVerificationRequest id (only_status st) w
  /\ exists w',
       updateVerificationStatus id st w = (Returned tt, w')
       /\ match rows (db w) !! id with
          | None =>
              db w' = db w
              /\ getVerificationRequest id w' = (Returned None, w')
          | Some r =>
              exists r',
                getVerificationRequest id w' = (Returned (Some (of_row r')), w')
                /\ updated_row (now w) (only_status st) r r'
                /\ Schema.status r' = st
          end.
Proof.
  split; [reflexivity|].
  change (updateVerificationStatus id st w)
    with (updateVerificationRequest id (only_status st) w).
  destruct (updateVerificationRequest_spec id (only_status st) w)
    as (w' & Hrun & _ & _ & _ & _ & Hnone & Hsame).
  exists w'. split; [exact Hrun|].
  destruct (rows (db w) !! id) as [r|] eqn:Hr.
  - destruct (Hsame r eq_refl) as (r' & Hr' & Hu).
    exists r'. split; [|split; [exact Hu|]].
    + unfold getVerificationRequest, bind, get_db, ret. now rewrite Hr'.
    + now destruct Hu as (_ & _ & _ & _ & _ & _ & _ & Hst & _).
  - rewrite (Hnone eq_refl). split; [reflexivity|].
    unfold getVerificationRequest, bind, get_db, ret.
    rewrite (Hnone eq_refl), Hr. reflexivity.
Qed.

Lemma supplies_merged u1 u2 :
  supplies (merged u1 u2) = supplies u1 || supplies u2.
Proof.
  destruct u1 as [? ? ? s1 ? ? ? ? ? v1 d1 t1 q1 l1],
           u2 as [? ? ? s2 ? ? ? ? ? v2 d2 t2 q2 l2].
  unfold supplies, merged, later, supplied; simpl.
  destruct s1, v1, d1, t1, q1, l1; simpl; try reflexivity;
    destruct s2, v2, d2, t2, q2, l2; reflexivity.
Qed.

Lemma updated_row_merged t u1 u2 r r1 r2 :
  updated_row t u1 r r1 -> updated_row t u2 r1 r2 ->
  updated_row t (merged u1 u2) r r2.
Proof.
  unfold updated_row. rewrite supplies_merged.
  intros (? & ? & ? & ? & ? & ? & ? & Hs1 & Hv1 & Hd1 & Ht1 & Hq1 & Hl1 & Hu1)
         (? & ? & ? & ? & ? & ? & ? & Hs2 & Hv2 & Hd2 & Ht2 & Hq2 & Hl2 & Hu2).
  repeat (split; [congruence|]).
  simpl. rewrite Hs2, Hs1, Hv2, Hv1, Hd2, Hd1, Ht2, Ht1, Hq2, Hq1, Hl2, Hl1, Hu2, Hu1.
  unfold later.
  repeat split;
    try (match goal with
         | |- context [VerificationRequest.status u2] =>
             destruct (VerificationRequest.status u2)
         | |- context [VerificationRequest.validation_data u2] =>
             destruct (VerificationRequest.validation_data u2)
         | |- context [VerificationRequest.reputation_data u2] =>
             destruct (VerificationRequest.reputation_data u2)
         | |- context [VerificationRequest.api_response_time u2] =>
             destruct (VerificationRequest.api_response_time u2)
         | |- context [VerificationRequest.quality_score u2] =>
             destruct (VerificationRequest.quality_score u2)
         | |- context [VerificationRequest.risk_level u2] =>
             destruct (VerificationRequest.risk_level u2)
         end; reflexivity).
  destruct (supplies u2), (supplies u1); reflexivity.
Qed.

Lemma store_eq a b : rows a = rows b -> seq a = seq b -> a = b.
Proof. destruct a, b; simpl; congruence. Qed.

(** X4. Two updates of a row, one after the other, leave the table that
    the one update leaves which supplies, for every column, the later of
    the two values; an update made twice leaves the table it leaves when
    made once. *)
Theorem updates_compose (id : Z) (u1 u2 : VerificationRequest.t) (w : world) :
  db (snd (updateVerificationRequest id u2
             (snd (updateVerificationRequest id u1 w))))
  = db (snd (updateVerificationRequest id (merged u1 u2) w))
  /\ db (snd (updateVerificationRequest id u1
                (snd (updateVerificationRequest id u1 w))))
     = db (snd (updateVerificationRequest id u1 w)).
Proof.
  assert (Hcompose : forall u1 u2,
    db (snd (updateVerificationRequest id u2
               (snd (updateVerificationRequest id u1 w))))
    = db (snd (updateVerificationRequest id (merged u1 u2) w))).
  { clear u1 u2. intros u1 u2.
    destruct (updateVerificationRequest_spec id u1 w)
      as (w1 & Hrun1 & Hnow1 & _ & Hseq1 & Hother1 & Hnone1 & Hsame1).
    rewrite Hrun1. simpl.
    destruct (updateVerificationRequest_spec id u2 w1)
      as (w2 & Hrun2 & _ & _ & Hseq2 & Hother2 & Hnone2 & Hsame2).
    rewrite Hrun2. simpl.
    destruct (updateVerificationRequest_spec id (merged u1 u2) w)
      as (w3 & Hrun3 & _ & _ & Hseq3 & Hother3 & Hnone3 & Hsame3).
    rewrite Hrun3. simpl.
    apply store_eq; [|congruence].
    apply map_eq. intros i.
    destruct (decide (i = id)) as [->|Hne].
    - destruct (rows (db w) !! id) as [r|] eqn:Hr.
      + destruct (Hsame1 r eq_refl) as (r1 & Hr1 & Hu1).
        destruct (Hsame2 r1 Hr1) as (r2 & Hr2 & Hu2).
        destruct (Hsame3 r eq_refl) as (r3 & Hr3 & Hu3).
        rewrite Hr2, Hr3. f_equal.
        rewrite Hnow1 in Hu2.
        eapply updated_row_unique; [|exact Hu3].
        eapply updated_row_merged; eauto.
      + pose proof (Hnone1 eq_refl) as H1.
        assert (H2 : db w2 = db w1) by (apply Hnone2; now rewrite H1).
        now rewrite H2, H1, (Hnone3 eq_refl).
    - rewrite (Hother2 i Hne), (Hother1 i Hne), (Hother3 i Hne). reflexivity. }
  split; [apply Hcompose|].
  rewrite Hcompose.
  destruct (updateVerificationRequest_spec id (merged u1 u1) w)
    as (w3 & Hrun3 & _ & _ & Hseq3 & Hother3 & Hnone3 & Hsame3).
  destruct (updateVerificationRequest_spec id u1 w)
    as (w1 & Hrun1 & _ & _ & Hseq1 & Hother1 & Hnone1 & Hsame1).
  rewrite Hrun3, Hrun1. simpl.
  apply store_eq; [|congruence].
  apply map_eq. intros i.
  destruct (decide (i = id)) as [->|Hne].
  - destruct (rows (db w) !! id) as [r|] eqn:Hr.
    + destruct (Hsame1 r eq_refl) as (r1 & Hr1 & Hu1).
      destruct (Hsame3 r eq_refl) as (r3 & Hr3 & Hu3).
      rewrite Hr1, Hr3. f_equal.
      eapply updated_row_unique; [exact Hu3|].
      assert (Hu11 : updated_row (now w) u1 r1 r1).
      { unfold updated_row in *.
        destruct Hu1 as (? & ? & ? & ? & ? & ? & ? & Hs & Hv & Hd & Ht & Hq & Hl & Hu).
        repeat (split; [reflexivity|]).
        rewrite Hs, Hv, Hd, Ht, Hq, Hl, Hu.
        destruct u1 as [? ? ? s ? ? ? ? ? v d t q l]; simpl.
        destruct s, v, d, t, q, l; simpl; repeat split. }
      eapply updated_row_merged; eauto.
    + now rewrite (Hnone1 eq_refl), (Hnone3 eq_refl).
  - rewrite (Hother1 i Hne), (Hother3 i Hne). reflexivity.
Qed.

(** ** The record store: the query by value *)

Lemma insert_desc_Permutation r l : Permutation (insert_desc r l) (r :: l).
Proof.
  induction l as [|x l IH]; simpl; [reflexivity|].
  destruct (Schema.created_at x <=? Schema.created_at r); [reflexivity|].
  rewrite IH. apply perm_swap.
Qed.

Lemma order_by_created_at_desc_Permutation l :
  Permutation (order_by_created_at_desc l) l.
Proof.
  induction l as [|x l IH]; simpl; [reflexivity|].
  rewrite insert_desc_Permutation. now constructor.
Qed.

Lemma insert_desc_sorted r l :
  StronglySorted not_older l -> StronglySorted not_older (insert_desc r l).
Proof.
  induction 1 as [|x l Hs IH Hx]; simpl.
  - constructor; constructor.
  - destruct (Schema.created_at x <=? Schema.created_at r) eqn:Hle.
    + apply Z.leb_le in Hle. constructor; [now constructor|].
      constructor; [exact Hle|].
      rewrite Forall_forall in Hx. apply Forall_forall. intros y Hy.
      specialize (Hx y Hy). unfold not_older in *. lia.
    + apply Z.leb_gt in Hle. constructor; [exact IH|].
      rewrite Forall_forall in Hx. apply Forall_forall. intros y Hy.
      apply list_elem_of_In, In_insert_desc in Hy as [->|Hy].
      * unfold not_older. lia.
      * apply Hx. now apply list_elem_of_In.
Qed.

Lemma order_by_created_at_desc_sorted l :
  StronglySorted not_older (order_by_created_at_desc l).
Proof.
  induction l as [|x l IH]; simpl; [constructor|].
  now apply insert_desc_sorted.
Qed.

(** X5. [getVerificationRequestsByValue] reads without writing: it
    returns the rows of the table of the given type and value, each one
    once and no other, the newest first. *)
Theorem getVerificationRequestsByValue_newest_first
  (k : Kind.t) (v : jsstring) (w : world) :
  exists l,
    getVerificationRequestsByValue k v w = (Returned (map of_row l), w)
    /\ Permutation l (matching k v (db w))
    /\ StronglySorted not_older l
    /\ (forall r,
          In r l
          <-> (exists id, rows (db w) !! id = Some r)
              /\ Schema.type r = k /\ Schema.value r = v).
Proof.
  exists (select_by_value (db w) k v).
  split; [reflexivity|]. split; [|split].
  - apply order_by_created_at_desc_Permutation.
  - apply order_by_created_at_desc_sorted.
  - intros r. apply In_select_by_value.
Qed.

(** ** The record store: the statistics *)

Lemma length_all_rows s : length (all_rows s) = size (rows s).
Proof. unfold all_rows. now rewrite length_map, length_map_to_list. Qed.

Lemma status_partition (l : list Schema.row) :
  (length (List.filter (has_status verified) l)
   + length (List.filter (has_status failed) l)
   + length (List.filter (has_status pending) l))%nat
  = length l.
Proof.
  induction l as [|r l IH]; [reflexivity|].
  cbn [List.filter]. unfold has_status in *.
  destruct (Schema.status r); simpl; lia.
Qed.

Lemma case_risk_partition (levels : list Risk) :
  fold_right Z.add 0 (map (case_risk low) levels)
  + fold_right Z.add 0 (map (case_risk medium) levels)
  + fold_right Z.add 0 (map (case_risk high) levels)
  = Z.of_nat (length levels)
  /\ 0 <= fold_right Z.add 0 (map (case_risk low) levels)
  /\ 0 <= fold_right Z.add 0 (map (case_risk medium) levels)
  /\ 0 <= fold_right Z.add 0 (map (case_risk high) levels).
Proof.
  induction levels as [|r levels IH]; [simpl; lia|].
  cbn [map fold_right length]. destruct r; simpl case_risk; lia.
Qed.

(** X6. The statistics read without writing.  The total is the number
    of rows; the verified, the failed and the pending rows add up to it.
    When no row has a risk level the three counts of the distribution
    are null, not zero (the row of aggregates is an object, so the
    fallback to zeros is not taken); otherwise they are numbers that add
    up to the number of rows with a risk level.  An average over no
    value is given as 0. *)
Theorem getVerificationStats_counts (w : world) :
  exists st,
    getVerificationStats w = (Returned st, w)
    /\ Stats.total_requests st = Z.of_nat (size (rows (db w)))
    /\ Stats.successful_requests st + Stats.failed_requests st
       + sql_count (has_status pending) (db w)
       = Stats.total_requests st
    /\ 0 <= Stats.successful_requests st
    /\ 0 <= Stats.failed_requests st
    /\ match not_null Schema.risk_level (db w) with
       | [] =>
           Stats.risk_distribution st
           = {| Stats.low := None; Stats.medium := None; Stats.high := None |}
       | levels =>
           exists l m h,
             Stats.risk_distribution st
             = {| Stats.low := Some l; Stats.medium := Some m;
                  Stats.high := Some h |}
             /\ 0 <= l /\ 0 <= m /\ 0 <= h
             /\ l + m + h = Z.of_nat (length levels)
       end
    /\ (not_null Schema.api_response_time (db w) = [] ->
        Stats.average_response_time st = 0%Q)
    /\ (not_null Schema.quality_score (db w) = [] ->
        Stats.average_quality_score st = 0%Q).
Proof.
  eexists. split; [reflexivity|]. simpl.
  split; [|split; [|split; [|split; [|split; [|split]]]]].
  - unfold sql_count. simpl. rewrite List.filter_true, length_all_rows.
    reflexivity.
  - unfold sql_count. simpl (List.filter (fun _ => true) _).
    rewrite List.filter_true.
    pose proof (status_partition (all_rows (db w))). lia.
  - unfold sql_count. lia.
  - unfold sql_count. lia.
  - destruct (not_null Schema.risk_level (db w)) as [|r levels] eqn:Hl;
      [reflexivity|].
    destruct (case_risk_partition (r :: levels)) as (Hsum & Hl0 & Hm0 & Hh0).
    eexists _, _, _. split; [reflexivity|]. auto.
  - intros ->. reflexivity.
  - intros ->. reflexivity.
Qed.

(** On the empty table and on the table of [world1], whose one row is
    verified and of low risk. *)
Lemma getVerificationStats_counts_witness :
  (exists st,
      getVerificationStats world0 = (Returned st, world0)
      /\ Stats.total_requests st = 0
      /\ Stats.risk_distribution st
         = {| Stats.low := None; Stats.medium := None; Stats.high := None |}
      /\ Stats.average_response_time st = 0%Q)
  /\ (exists st,
        getVerificationStats world1 = (Returned st, world1)
        /\ Stats.total_requests st = 1
        /\ Stats.successful_requests st = 1
        /\ Stats.risk_distribution st
           = {| Stats.low := Some 1; Stats.medium := Some 0;
                Stats.high := Some 0 |}).
Proof.
  split.
  - destruct (getVerificationStats_counts world0)
      as (st & Hrun & Htotal & _ & _ & _ & Hrisk & Havg & _).
    exists st. split; [exact Hrun|]. split; [exact Htotal|].
    split; [exact Hrisk | exact (Havg eq_refl)].
  - destruct (getVerificationStats_counts world1)
      as (st & Hrun & Htotal & _).
    exists st. split; [exact Hrun|].
    assert (Hst : st = returned st (fst (getVerificationStats world1)))
      by now rewrite Hrun.
    split; [exact Htotal|].
    rewrite Hst. split; vm_compute; reflexivity.
Defined.

(** ** The external client: every run *)

Section Every_run.

Context (E : env).

Ltac close_round :=
  simpl; unfold ret, throw, after; simpl;
  rewrite <- ?app_assoc, <- ?Z.add_assoc; simpl; eauto 8.

Ltac end_round :=
  unfold round_ends, try_catch, bind; rewrite fetch_run; cbv zeta;
  unfold response_json;
  repeat (match goal with
          | |- context [if ?c then _ else _] => destruct c eqn:?
          | |- context [match result ?x with _ => _ end] => destruct (result x)
          | |- context [match ?x with Some _ => _ | None => _ end] => destruct x
          end; simpl);
  eexists; close_round.

Lemma validatePhone_round_ends phone attempt w :
  round_ends (validatePhone_round E phone) attempt w.
Proof. unfold validatePhone_round. end_round. Qed.

Lemma getEmailReputation_round_ends email attempt w :
  round_ends (getEmailReputation_round E email) attempt w.
Proof. unfold getEmailReputation_round. end_round. Qed.

End Every_run.

Section Three_rounds.

Context (round : Z -> M (step json)).
Hypothesis ends : forall attempt w, round_ends round attempt w.

Lemma every_run (after_ : M json) w :
  exists j ms,
    (1 <= j <= 3)%nat
    /\ snd (for_each (attempts 1 maxRetries) round after_ w)
       = after w ms (trail (attempts 1 (Z.of_nat (j - 1))) ++ [EFetch])
    /\ (forall e,
          fst (for_each (attempts 1 maxRetries) round after_ w) = Thrown e ->
          j = 3%nat).
Proof.
  change (attempts 1 maxRetries) with [1; 2; 3]. simpl for_each. unfold bind.
  destruct (ends 1 w) as [ms1 [(data & H1) | [(_ & H1) | (Hl & _)]]];
    [| |discriminate Hl]; rewrite H1.
  { exists 1%nat, ms1. simpl. split; [lia|]. split; [reflexivity|]. discriminate. }
  destruct (ends 2 (after w ms1 [EFetch; ESleep (backoff 1)]))
    as [ms2 [(data & H2) | [(_ & H2) | (Hl & _)]]];
    [| |discriminate Hl]; rewrite H2.
  { exists 2%nat, (ms1 + ms2). simpl. rewrite after_after.
    split; [lia|]. split; [reflexivity|]. discriminate. }
  destruct (ends 3 (after (after w ms1 [EFetch; ESleep (backoff 1)]) ms2
                      [EFetch; ESleep (backoff 2)]))
    as [ms3 [(data & H3) | [(Hl & _) | (_ & e & H3)]]];
    [|discriminate Hl|]; rewrite H3.
  - exists 3%nat, (ms1 + (ms2 + ms3)). simpl. rewrite !after_after.
    split; [lia|]. split; [reflexivity|]. discriminate.
  - exists 3%nat, (ms1 + (ms2 + ms3)). simpl. rewrite !after_after.
    split; [lia|]. split; [reflexivity|]. reflexivity.
Qed.

End Three_rounds.


Lemma for_each_alike {A} rounds (round1 round2 : Z -> M (step A)) after1 after2 :
  (forall attempt w, alike (round1 attempt) (round2 attempt) w) ->
  (forall w, alike after1 after2 w) ->
  forall w, alike (for_each rounds round1 after1) (for_each rounds round2 after2) w.
Proof.
  intros Hr Ha. induction rounds as [|attempt rest IH]; intros w; simpl;
    [apply Ha|].
  unfold alike, bind. destruct (Hr attempt w) as [Hw Hv].
  destruct (round1 attempt w) as [[[a|]|e1] w1],
           (round2 attempt w) as [[[b|]|e2] w2];
    simpl in *; subst; try contradiction; try discriminate; auto.
  - injection Hv as ->. auto.
  - apply IH.
Qed.

Lemma named_of_Error msg :
  named "AbortError" (Error msg) = false /\ named "TypeError" (Error msg) = false.
Proof. split; reflexivity. Qed.

Lemma named_of_SyntaxError msg :
  named "AbortError" (SyntaxError msg) = false
  /\ named "TypeError" (SyntaxError msg) = false.
Proof. split; reflexivity. Qed.

Lemma round_alike E email phone attempt w :
  alike (getEmailReputation_round E email attempt)
        (validatePhone_round E phone attempt) w.
Proof.
  unfold alike, getEmailReputation_round, validatePhone_round, try_catch, bind.
  rewrite fetch_run. cbv zeta. unfold response_json.
  destruct (timeout <=? elapsed (net E (fetches w))).
  { rewrite named_AbortError. destruct (attempt =? maxRetries); simpl; auto. }
  destruct (result (net E (fetches w))) as [msg|st tx pa].
  { rewrite named_AbortError_TypeError, named_TypeError.
    destruct (attempt =? maxRetries); simpl; auto. }
  destruct (negb (ok {| status := st; text := tx; parsed := pa |})).
  { destruct (attempt =? maxRetries) eqn:Hlast; [|simpl; auto].
    unfold throw. cbn [status].
    destruct (named_of_Error (js "HTTP error! status: " ++ decimal st))
      as [-> ->].
    simpl. auto. }
  cbn [parsed]. destruct pa as [data|]; [simpl; auto|].
  unfold throw.
  destruct (named_of_SyntaxError (js "Unexpected token in JSON")) as [-> ->].
  destruct (attempt =? maxRetries); simpl; auto.
Qed.

(** X8. [getEmailReputation] runs as [validatePhone] does: on the same
    answers of the service it makes the same calls and the same waits,
    and it returns the same body or fails as well; the two differ by the
    texts of their errors.  Like [validatePhone], and unlike
    [validateEmail], it neither looks at the class of the status nor at
    the body. *)
Theorem getEmailReputation_as_validatePhone
  (E : env) (email phone : jsstring) (w : world) :
  snd (getEmailReputation E email w) = snd (validatePhone E phone w)
  /\ data_of (fst (getEmailReputation E email w))
     = data_of (fst (validatePhone E phone w)).
Proof.
  destruct (for_each_alike (attempts 1 maxRetries)
              (getEmailReputation_round E email) (validatePhone_round E phone)
              (throw (Error (js "Failed to get email reputation from Abstract API")))
              (throw (Error (js "Failed to validate phone with Abstract API")))
              (round_alike E email phone)
              (fun w => conj eq_refl I) w) as [Hw Hv].
  split; [exact Hw|].
  unfold getEmailReputation, validatePhone.
  destruct (fst (for_each _ (getEmailReputation_round E email) _ w)),
           (fst (for_each _ (validatePhone_round E phone) _ w));
    simpl in *; try contradiction; congruence.
Qed.

(** ** The email client: its guards *)

Lemma key_message_is_no_network_error :
  named "AbortError" (Error (js "Email API key not configured")) = false
  /\ named "TypeError" (Error (js "Email API key not configured")) = false
  /\ includes (js "fetch") (js "Email API key not configured") = false.
Proof. repeat split; vm_compute; reflexivity. Qed.

(** What [validateEmail] returns was obtained with a key. *)
Lemma validateEmail_Returned_keyed E email w data w' :
  validateEmail E email w = (Returned data, w') ->
  truthy (JStr <$> ABSTRACT_EMAIL_API_KEY E) = true.
Proof.
  intros Hrun.
  destruct (truthy (JStr <$> ABSTRACT_EMAIL_API_KEY E)) eqn:Hkey;
    [reflexivity|].
  exfalso. revert Hrun.
  unfold validateEmail. change (attempts 1 maxRetries) with [1; 2; 3].
  simpl for_each. unfold bind, validateEmail_round at 1, try_catch.
  rewrite Hkey. change (negb false) with true. cbv iota. unfold throw.
  change (message (Error (js "Email API key not configured")))
    with (js "Email API key not configured").
  destruct key_message_is_no_network_error as (-> & -> & ->).
  discriminate.
Qed.

(** X9. Without an API key for the email service, [validateEmail] makes
    no external call and does not wait: it throws at once, saying that
    the key is not configured. *)
Theorem validateEmail_without_key (E : env) (email : jsstring) (w : world) :
  truthy (JStr <$> ABSTRACT_EMAIL_API_KEY E) = false ->
  validateEmail E email w
  = (Thrown
       (Error (js "Failed to validate email with Abstract API: Email API key not configured")),
     w).
Proof.
  intros Hkey.
  unfold validateEmail. change (attempts 1 maxRetries) with [1; 2; 3].
  simpl for_each. unfold bind, validateEmail_round at 1, try_catch.
  rewrite Hkey. change (negb false) with true. cbv iota. unfold throw.
  change (message (Error (js "Email API key not configured")))
    with (js "Email API key not configured").
  destruct key_message_is_no_network_error as (-> & -> & ->).
  reflexivity.
Qed.

Lemma validateEmail_without_key_witness :
  let E := {| ABSTRACT_EMAIL_API_KEY := None;
              ABSTRACT_PHONE_API_KEY := None;
              net := fun _ => x200 deliverable;
              random36 := fun _ => js "0.i";
              local_time := fun t => t |} in
  truthy (JStr <$> ABSTRACT_EMAIL_API_KEY E) = false
  /\ fetches (snd (validateEmail E (js "test@example.com") world0)) = 0%nat
  /\ data_of (fst (validateEmail E (js "test@example.com") world0)) = None.
Proof.
  intros E. split; [reflexivity|].
  rewrite (validateEmail_without_key E (js "test@example.com") world0 eq_refl).
  split; reflexivity.
Defined.

(** X10. What [validateEmail] returns holds the fields it requires, the
    API key is configured, at most 3 external calls were made and the
    table was not touched; and [validateEmailWithReputation] makes the
    calls of [validateEmail] and no other: it returns the body once as
    the validation and once as the reputation, or throws its one error
    whatever the cause. *)
Theorem validateEmail_returns_checked_body
  (E : env) (email : jsstring) (w : world) :
  (forall data w',
      validateEmail E email w = (Returned data, w') ->
      email_fields_present data
      /\ truthy (JStr <$> ABSTRACT_EMAIL_API_KEY E) = true
      /\ (fetches w' <= fetches w + 3)%nat
      /\ db w' = db w
      /\ validateEmailWithReputation E email w = (Returned (data, data), w'))
  /\ (forall e w',
        validateEmail E email w = (Thrown e, w') ->
        validateEmailWithReputation E email w
        = (Thrown (Error (js "Failed to validate email with reputation data")),
           w')).
Proof.
  split.
  - intros data w' Hrun.
    split; [eapply validateEmail_Returned; eauto|].
    split.
    { now apply (validateEmail_Returned_keyed E email w data w'). }
    pose proof (calls_validateEmail E email w) as Hcalls.
    pose proof (external_validateEmail E email w) as [Hdb _].
    rewrite Hrun in Hcalls, Hdb. simpl in Hcalls, Hdb.
    split; [exact Hcalls|]. split; [exact Hdb|].
    unfold validateEmailWithReputation, try_catch, bind. now rewrite Hrun.
  - intros e w' Hrun.
    unfold validateEmailWithReputation, try_catch, bind. now rewrite Hrun.
Qed.

Lemma validateEmail_returns_checked_body_witness :
  let E := scripted [x503; x200 deliverable] "0.i" in
  let run := validateEmail E (js "test@example.com") world0 in
  run = (Returned deliverable, snd run)
  /\ email_fields_present deliverable
  /\ validateEmailWithReputation E (js "test@example.com") world0
     = (Returned (deliverable, deliverable), snd run).
Proof.
  intros E run.
  assert (Hrun : run = (Returned deliverable, snd run)) by reflexivity.
  split; [exact Hrun|].
  destruct (validateEmail_returns_checked_body E (js "test@example.com") world0)
    as [Hok _].
  destruct (Hok deliverable (snd run) Hrun) as (Hfields & _ & _ & _ & Hboth).
  split; [exact Hfields | exact Hboth].
Defined.

(** X11. A client error in the first attempt of [validateEmail] (a
    status from 400 to 499 that is not 429): when the message made of
    the status and of the body does not hold the word fetch, the one
    call is the last and the error names the status and the body; when
    it holds the word, the error is taken for one of the network, and
    the client waits 1000 milliseconds and goes on to a second attempt. *)
Theorem validateEmail_client_error_at_first
  (E : env) (email : jsstring) (w : world) (st : Z) (tx : jsstring)
  (pa : option json) :
  truthy (JStr <$> ABSTRACT_EMAIL_API_KEY E) = true ->
  elapsed (net E (fetches w)) < timeout ->
  result (net E (fetches w)) = Response st tx pa ->
  400 <= st < 500 ->
  st <> 429 ->
  let msg := js "HTTP error! status: " ++ decimal st ++ js ", message: " ++ tx in
  (includes (js "fetch") msg = false ->
   validateEmail E email w
   = (Thrown (Error (js "Failed to validate email with Abstract API: " ++ msg)),
      after w (elapsed (net E (fetches w))) [EFetch]))
  /\ (includes (js "fetch") msg = true ->
      validateEmail_round E email 1 w
      = (Returned Continue,
         after w (elapsed (net E (fetches w)) + 1000) [EFetch; ESleep 1000])).
Proof.
  intros Hkey Htime Hres Hst Hne msg.
  assert (Hround : forall attempt,
    validateEmail_round E email attempt w
    = (if includes (js "fetch") msg then
         if attempt =? maxRetries then
           throw (Error (js "Failed to connect to email validation service. Please check your internet connection."))
         else sleep (backoff attempt) ;; ret Continue
       else if attempt =? 1 then
         throw (Error (js "Failed to validate email with Abstract API: " ++ msg))
       else if attempt =? maxRetries then
         throw (Error (js "Failed to validate email with Abstract API: " ++ msg))
       else sleep (backoff attempt) ;; ret Continue)
        (after w (elapsed (net E (fetches w))) [EFetch])).
  { intros attempt.
    unfold validateEmail_round, try_catch. rewrite Hkey.
    change (negb true) with false. unfold bind at 1. cbv beta iota.
    rewrite fetch_run. cbv zeta.
    replace (timeout <=? elapsed (net E (fetches w))) with false
      by (symmetry; apply Z.leb_gt; lia).
    rewrite Hres. unfold ok. cbn [status text].
    replace (st <=? 299) with false by (symmetry; apply Z.leb_gt; lia).
    rewrite andb_false_r. change (negb false) with true. cbv iota.
    replace (400 <=? st) with true by (symmetry; apply Z.leb_le; lia).
    replace (st <? 500) with true by (symmetry; apply Z.ltb_lt; lia).
    replace (st =? 429) with false by (symmetry; apply Z.eqb_neq; lia).
    cbn [andb negb]. unfold throw at 1.
    destruct (named_of_Error msg) as [Ha Ht]. fold msg. rewrite Ha, Ht.
    reflexivity. }
  split; intros Hfetch.
  - unfold validateEmail. change (attempts 1 maxRetries) with [1; 2; 3].
    simpl for_each. unfold bind at 1. rewrite Hround, Hfetch. reflexivity.
  - rewrite Hround, Hfetch. simpl. unfold bind, ret, after. simpl.
    now rewrite <- app_assoc, <- Z.add_assoc.
Qed.

Lemma validateEmail_client_error_at_first_witness :
  truthy (JStr <$> ABSTRACT_EMAIL_API_KEY not_found_first) = true
  /\ elapsed (net not_found_first (fetches world0)) < timeout
  /\ result (net not_found_first (fetches world0))
     = Response 404 (js "Not Found") None
  /\ validateEmail not_found_first (js "test@example.com") world0
     = (Thrown
          (Error (js "Failed to validate email with Abstract API: HTTP error! status: 404, message: Not Found")),
        after world0 60 [EFetch]).
Proof.
  split; [reflexivity|]. split; [reflexivity|]. split; [reflexivity|].
  destruct (validateEmail_client_error_at_first not_found_first
              (js "test@example.com") world0 404 (js "Not Found") None
              eq_refl eq_refl eq_refl ltac:(lia) ltac:(lia)) as [Herr _].
  exact (Herr eq_refl).
Defined.

(** ** The handler: every request *)

Section Every_request.

Context (E : env).

Lemma error_answer_intro msg st :
  In (msg, st) error_answers ->
  error_answer {| Next.json_body := Next.error (js msg); Next.http_status := st |}.
Proof. intros H. exists msg, st. auto. Qed.

Lemma POST_answers request w :
  exists r w',
    POST E request w = (Returned r, w')
    /\ (success_answer r \/ error_answer r).
Proof.
  unfold POST, getVerificationRequestsByValue, respond, Date_now, get_db, lift.
  unfold bind, try_catch, ret, throw.
  repeat (match goal with
          | |- context [match ?x with _ => _ end] =>
              lazymatch x with
              | context [match _ with _ => _ end] => fail
              | _ => destruct x eqn:?
              end
          end);
    do 2 eexists; (split; [reflexivity|]);
    first [ left; eexists; reflexivity
          | right; apply error_answer_intro; simpl; auto 10 ].
Qed.

Lemma scoring_scores validationData q rl :
  scoring validationData = Returned (q, rl) ->
  In (q, rl) scores
  /\ exists valid,
       prop validationData "valid" = Returned valid
       /\ (rl = high <-> truthy valid = false).
Proof.
  unfold scoring.
  destruct (prop validationData "valid") as [valid|e]; [|discriminate].
  destruct (truthy valid) eqn:Hvalid; simpl.
  - destruct (prop validationData "type") as [type|e]; [|discriminate].
    repeat (match goal with
            | |- context [if ?c then _ else _] => destruct c
            end);
      intros [= <- <-]; (split; [simpl; auto 10|]);
      exists valid; (split; [reflexivity|]); rewrite Hvalid; split; discriminate.
  - intros [= <- <-]. split; [simpl; auto|].
    exists valid. split; [reflexivity|]. rewrite Hvalid. split; reflexivity.
Qed.

Lemma scores_nonzero q rl : In (q, rl) scores -> Qnum q <> 0.
Proof.
  simpl. intros [H|[H|[H|[H|[H|[]]]]]]; injection H as <- _; simpl; lia.
Qed.

Lemma POST_no_value_answer request w :
  value_of request = None ->
  exists r,
    POST E request w = (Returned r, w) /\ (is_error 400 r \/ is_error 500 r).
Proof.
  unfold value_of, POST, respond, Date_now, lift. unfold bind, try_catch, ret.
  destruct (Next.body request) as [b|];
    [|intros _; eexists; split; [reflexivity | right; eexists; reflexivity]].
  destruct (prop b "phone") as [x|e];
    [|intros _; eexists; split; [reflexivity | right; eexists; reflexivity]].
  destruct x as [j|];
    [|intros _; eexists; split; [reflexivity | left; eexists; reflexivity]].
  destruct j as [| | |[|c s]| |]; try discriminate;
    intros _; eexists; (split; [reflexivity | left; eexists; reflexivity]).
Qed.

Lemma is_error_status st r : is_error st r -> Next.http_status r = st.
Proof. now intros (msg & ->). Qed.

(** An answer 200 comes from the one path: a valid value, no recent
    attempt, a body returned by the client, and a body that can be
    scored. *)
Lemma POST_200_inv request w r w' :
  POST E request w = (Returned r, w') ->
  Next.http_status r = 200 ->
  exists v validationData w1 q rl,
    value_of request = Some v
    /\ phoneRegex_test v = true
    /\ ~ rate_limited E w Kind.phone v
    /\ validatePhone E v w = (Returned validationData, w1)
    /\ scoring validationData = Returned (q, rl).
Proof.
  intros Hrun H200.
  assert (Hno : forall st r0 w0,
             POST E request w = (Returned r0, w0) -> is_error st r0 ->
             st <> 200 -> False).
  { intros st r0 w0 Hrun0 Herr Hst. rewrite Hrun in Hrun0.
    injection Hrun0 as <- _. apply is_error_status in Herr. congruence. }
  destruct (value_of request) as [v|] eqn:Hv.
  2:{ destruct (POST_no_value_answer request w Hv) as (r0 & Hr0 & [He|He]);
        exfalso; eapply Hno; eauto; discriminate. }
  destruct (phoneRegex_test v) eqn:Hre.
  2:{ pose proof Hv as Hv'. apply value_of_Some in Hv' as (b & Hb & Hp).
      destruct (POST_invalid E request w b (Some (JStr v)) Hb Hp) as (r0 & Hr0 & He).
      - intros v' [= <-]. exact Hre.
      - exfalso; eapply Hno; eauto; discriminate. }
  destruct (List.find (recent E (now w))
              (map of_row (select_by_value (db w) Kind.phone v))) as [a|] eqn:Hf.
  { apply find_recent_prior in Hf.
    destruct (POST_rate_limited E request w v Hv Hre Hf) as (r0 & Hr0 & He).
    exfalso; eapply Hno; eauto; discriminate. }
  apply find_recent_not_prior in Hf.
  destruct (validatePhone E v w) as [[validationData|e] w1] eqn:Hcall.
  2:{ destruct (POST_external_failure E request w v e w1 Hv Hre Hf Hcall)
        as (r0 & Hr0 & He).
      exfalso; eapply Hno; eauto; discriminate. }
  destruct (scoring validationData) as [[q rl]|e] eqn:Hscore.
  2:{ destruct (POST_scoring_failure E request w v validationData w1 e
                  Hv Hre Hf Hcall Hscore) as (r0 & Hr0 & He).
      exfalso; eapply Hno; eauto; discriminate. }
  exists v, validationData, w1, q, rl. auto.
Qed.

End Every_request.

Section Settled_requests.

Context (E : env).

Lemma or_string_nonempty a b : b <> [] -> or_string a b <> [].
Proof. intros Hb. destruct a as [[|c s]|]; simpl; congruence. Qed.

(** The row a successful request leaves, column by column. *)
Lemma POST_success_row request w v validationData w1 q rl :
  value_of request = Some v ->
  phoneRegex_test v = true ->
  ~ rate_limited E w Kind.phone v ->
  validatePhone E v w = (Returned validationData, w1) ->
  scoring validationData = Returned (q, rl) ->
  exists valid row,
    prop validationData "valid" = Returned valid
    /\ now (snd (POST E request w)) = now w1
    /\ seq (db (snd (POST E request w))) = seq (db w) + 1
    /\ rows (db (snd (POST E request w))) !! (seq (db w) + 1) = Some row
    /\ (forall id, id <> seq (db w) + 1 ->
        rows (db (snd (POST E request w))) !! id = rows (db w) !! id)
    /\ Schema.id row = seq (db w) + 1
    /\ Schema.type row = Kind.phone
    /\ Schema.value row = v
    /\ Schema.status row = (if truthy valid then verified else failed)
    /\ Schema.verification_code row = Some (next_code E w1)
    /\ Schema.created_at row = CURRENT_TIMESTAMP (now w1)
    /\ Schema.ip_address row
       = Some (or_string (Next.x_forwarded_for request) (js "unknown"))
    /\ Schema.user_agent row
       = Some (or_string (Next.user_agent request) (js "unknown"))
    /\ Schema.validation_data row = stringify_or_null (Some validationData)
    /\ Schema.quality_score row = Some q
    /\ Schema.risk_level row = Some rl
    /\ Schema.api_response_time row = Some (now w1 - now w).
Proof.
  intros Hv Hre Hprior Hcall Hscore.
  destruct (POST_success E request w v validationData w1 q rl
              Hv Hre Hprior Hcall Hscore)
    as (valid & created & w2 & w3 & Hvalid & Hcreate & Hupd & Hrun).
  pose proof (external_validatePhone E v w) as [Hdb1 _].
  rewrite Hcall in Hdb1. simpl in Hdb1.
  destruct (createVerificationRequest_Returned E _ _ _ _ Hcreate)
    as (ty & va & r & Hty & Hva & Hdb2 & Hnow2 & _ & _ & _ & Hr).
  simpl in Hty, Hva. injection Hty as <-. injection Hva as <-.
  destruct (updateVerificationRequest_spec (seq (db w1) + 1)
              (response_time (now w1 - now w)) w2)
    as (w3' & Hupd' & Hnow3 & _ & Hseq3 & Hother & _ & Hsame).
  rewrite Hupd in Hupd'. injection Hupd' as <-.
  assert (Hrow : rows (db w2) !! (seq (db w1) + 1) = Some r).
  { rewrite Hdb2. simpl. apply lookup_insert_eq. }
  destruct (Hsame r Hrow) as (row & Hrow3 & Hu).
  destruct Hu as (Hid & Hty & Hva & Hco & Hca & Hip & Hua & Hst & Hvd & _
                  & Hrt & Hqs & Hrl & _).
  destruct (scoring_scores validationData q rl Hscore) as (Hin & _).
  pose proof (scores_nonzero q rl Hin) as Hq.
  exists valid, row. rewrite Hrun. simpl. rewrite Hdb1 in *.
  split; [exact Hvalid|]. split; [congruence|].
  split; [rewrite Hseq3, Hdb2; reflexivity|].
  split; [exact Hrow3|]. split.
  { intros id Hne. rewrite (Hother id Hne), Hdb2. simpl.
    apply lookup_insert_ne. congruence. }
  rewrite Hid, Hty, Hva, Hco, Hca, Hip, Hua, Hst, Hvd, Hrt, Hqs, Hrl, Hr.
  simpl. unfold or_null_Q.
  replace (Qnum q =? 0) with false by (symmetry; now apply Z.eqb_neq).
  repeat split.
Qed.

End Settled_requests.

(** ** Every request to the route *)

Section Route.

Context (E : env).

Lemma error_answer_status r :
  error_answer r -> In (Next.http_status r) [400; 429; 502; 500].
Proof.
  intros (msg & st & Hin & ->). simpl in *.
  repeat (destruct Hin as [Hin|Hin]; [injection Hin as <- <-; auto 10|]).
  destruct Hin.
Qed.

Lemma error_answer_not_200 r : error_answer r -> Next.http_status r <> 200.
Proof.
  intros He. apply error_answer_status in He. simpl in He.
  intros H200. rewrite H200 in He. intuition discriminate.
Qed.

(** A run of [POST] ends in an answer that is no success and leaves the
    table as it was, or it goes the whole way: a value the pattern
    accepts, no row that the test of the rate limit finds, an answer of
    the service and its scoring. *)
Lemma POST_cases request w :
  (exists r w',
      POST E request w = (Returned r, w') /\ error_answer r /\ db w' = db w)
  \/ (exists v validationData w1 q rl,
        value_of request = Some v
        /\ phoneRegex_test v = true
        /\ ~ rate_limited E w Kind.phone v
        /\ validatePhone E v w = (Returned validationData, w1)
        /\ scoring validationData = Returned (q, rl)).
Proof.
  destruct (POST_answers E request w) as (r & w' & Hrun & [Hs|He]).
  { right. destruct Hs as (s & ->).
    now apply (POST_200_inv E request w
                 {| Next.json_body := Next.success_true s;
                    Next.http_status := 200 |} w'). }
  destruct (value_of request) as [v|] eqn:Hv.
  2:{ left. exists r, w'. repeat split; auto.
      pose proof (POST_no_value E request w Hv) as H.
      rewrite Hrun in H. simpl in H. now subst. }
  destruct (phoneRegex_test v) eqn:Hre.
  2:{ left. exists r, w'. repeat split; auto.
      destruct (value_of_Some request v Hv) as (b & Hb & Hp).
      assert (Hno : forall v0, Some (JStr v) = Some (JStr v0) ->
                               phoneRegex_test v0 = false)
        by (intros v0 [= <-]; exact Hre).
      destruct (POST_invalid E request w b _ Hb Hp Hno) as (r0 & Hr0 & _).
      rewrite Hrun in Hr0. now injection Hr0 as _ ->. }
  destruct (List.find (recent E (now w))
              (map of_row (select_by_value (db w) Kind.phone v))) eqn:Hf.
  { left. exists r, w'. repeat split; auto.
    apply find_recent_prior in Hf.
    destruct (POST_rate_limited E request w v Hv Hre Hf) as (r0 & Hr0 & _).
    rewrite Hrun in Hr0. now injection Hr0 as _ ->. }
  apply find_recent_not_prior in Hf.
  destruct (validatePhone E v w) as [[validationData|e] w1] eqn:Hcall.
  2:{ left. exists r, w'. repeat split; auto.
      destruct (POST_external_failure E request w v e w1 Hv Hre Hf Hcall)
        as (r0 & Hr0 & _).
      rewrite Hrun in Hr0. injection Hr0 as _ ->.
      pose proof (external_validatePhone E v w) as [Hdb _].
      now rewrite Hcall in Hdb. }
  destruct (scoring validationData) as [[q rl]|e] eqn:Hsc.
  2:{ left. exists r, w'. repeat split; auto.
      destruct (POST_scoring_failure E request w v validationData w1 e
                  Hv Hre Hf Hcall Hsc) as (r0 & Hr0 & _).
      rewrite Hrun in Hr0. injection Hr0 as _ ->.
      pose proof (external_validatePhone E v w) as [Hdb _].
      now rewrite Hcall in Hdb. }
  right. exists v, validationData, w1, q, rl. auto.
Qed.

(** X12. [POST] never throws: every request is answered, with a success
    (status 200) or with one of five messages and the status that goes
    with it (400, 429, 502 or 500); and an answer other than a 200 has
    left the table as it was. *)
Theorem POST_always_answers request w :
  exists r w',
    POST E request w = (Returned r, w')
    /\ (success_answer r \/ error_answer r)
    /\ In (Next.http_status r) [200; 400; 429; 502; 500]
    /\ (Next.http_status r <> 200 -> db w' = db w).
Proof.
  destruct (POST_answers E request w) as (r & w' & Hrun & Hans).
  exists r, w'. split; [exact Hrun|]. split; [exact Hans|]. split.
  - destruct Hans as [(s & ->)|He]; [now left|].
    right. now apply error_answer_status.
  - intros Hst.
    destruct (POST_cases request w)
      as [(r0 & w0 & Hrun0 & _ & Hdb)
         |(v & vd & w1 & q & rl & Hv & Hre & Hf & Hcall & Hsc)].
    + rewrite Hrun in Hrun0. now injection Hrun0 as _ ->.
    + destruct (POST_success E request w v vd w1 q rl Hv Hre Hf Hcall Hsc)
        as (valid & created & w2 & w3 & _ & _ & _ & Hrun0).
      rewrite Hrun in Hrun0. injection Hrun0 as -> _. now elim Hst.
Qed.

(** The answers 400 and 429, by the tests of the route. *)
Lemma POST_400_429_tests request w b x :
  Next.body request = Some b ->
  prop b "phone" = Returned x ->
  exists r w',
    POST E request w = (Returned r, w')
    /\ (Next.http_status r = 400
        <-> forall v, x = Some (JStr v) -> phoneRegex_test v = false)
    /\ (Next.http_status r = 429
        <-> exists v, x = Some (JStr v)
                      /\ phoneRegex_test v = true
                      /\ rate_limited E w Kind.phone v)
    /\ (Next.http_status r = 400 \/ Next.http_status r = 429 -> w' = w).
Proof.
  intros Hb Hp.
  assert (Hx : (forall v, x = Some (JStr v) -> phoneRegex_test v = false)
               \/ exists v, x = Some (JStr v) /\ phoneRegex_test v = true).
  { destruct x as [[| | |v| |]|]; try (left; intros ? [=]; fail).
    destruct (phoneRegex_test v) eqn:Hre.
    - right. now exists v.
    - left. now intros ? [= <-]. }
  destruct Hx as [Hno|(v & -> & Hre)].
  { destruct (POST_invalid E request w b x Hb Hp Hno) as (r & Hrun & Hr).
    apply is_error_status in Hr.
    exists r, w. split; [exact Hrun|]. rewrite Hr. split; [tauto|].
    split; [|reflexivity]. split; [discriminate|].
    intros (v & -> & Hre & _). rewrite (Hno v eq_refl) in Hre. discriminate. }
  assert (Hv : value_of request = Some v).
  { unfold value_of. now rewrite Hb, Hp. }
  assert (Hyes : ~ forall v0, Some (JStr v) = Some (JStr v0) ->
                              phoneRegex_test v0 = false).
  { intros H. rewrite (H v eq_refl) in Hre. discriminate. }
  destruct (List.find (recent E (now w))
              (map of_row (select_by_value (db w) Kind.phone v))) eqn:Hf.
  { apply find_recent_prior in Hf.
    destruct (POST_rate_limited E request w v Hv Hre Hf) as (r & Hrun & Hr).
    apply is_error_status in Hr.
    exists r, w. split; [exact Hrun|]. rewrite Hr.
    split; [split; [discriminate|tauto]|].
    split; [|reflexivity]. split; [|reflexivity].
    intros _. now exists v. }
  apply find_recent_not_prior in Hf.
  assert (Hnot : ~ exists v0, Some (JStr v) = Some (JStr v0)
                              /\ phoneRegex_test v0 = true
                              /\ rate_limited E w Kind.phone v0).
  { intros (v0 & [= <-] & _ & Hprior). now apply Hf. }
  destruct (POST_answers E request w) as (r & w' & Hrun & _).
  exists r, w'. split; [exact Hrun|].
  assert (Hst : In (Next.http_status r) [502; 500; 200]).
  { destruct (validatePhone E v w) as [[vd|e] w1] eqn:Hcall.
    2:{ destruct (POST_external_failure E request w v e w1 Hv Hre Hf Hcall)
          as (r0 & Hr0 & Hr).
        rewrite Hrun in Hr0. injection Hr0 as -> _.
        apply is_error_status in Hr. rewrite Hr. simpl. auto. }
    destruct (scoring vd) as [[q rl]|e] eqn:Hsc.
    2:{ destruct (POST_scoring_failure E request w v vd w1 e
                    Hv Hre Hf Hcall Hsc) as (r0 & Hr0 & Hr).
        rewrite Hrun in Hr0. injection Hr0 as -> _.
        apply is_error_status in Hr. rewrite Hr. simpl. auto. }
    destruct (POST_success E request w v vd w1 q rl Hv Hre Hf Hcall Hsc)
      as (valid & created & w2 & w3 & _ & _ & _ & Hrun0).
    rewrite Hrun in Hrun0. injection Hrun0 as -> _. simpl. auto. }
  simpl in Hst.
  split; [split; [intros H4; rewrite H4 in Hst; intuition discriminate
                 |intros H; now elim Hyes]|].
  split; [split; [intros H4; rewrite H4 in Hst; intuition discriminate
                 |intros H; now elim Hnot]|].
  intros [H4|H4]; rewrite H4 in Hst; intuition discriminate.
Qed.

(** X13. For a request whose body is JSON and not [null], the answer is
    a 400 exactly when the body holds no string under [phone] that the
    pattern of the route accepts, and a 429 exactly when it holds one of
    which the table has a row whose [created_at], read in the zone of
    the server, is less than 5 minutes old; when the zone of the server
    is UTC, that is an attempt made within the last 5 minutes.  Either
    answer is given without an external call or a change of the table. *)
Theorem POST_400_and_429 request w b x :
  Next.body request = Some b ->
  prop b "phone" = Returned x ->
  exists r w',
    POST E request w = (Returned r, w')
    /\ (Next.http_status r = 400
        <-> forall v, x = Some (JStr v) -> phoneRegex_test v = false)
    /\ (Next.http_status r = 429
        <-> exists v, x = Some (JStr v)
                      /\ phoneRegex_test v = true
                      /\ rate_limited E w Kind.phone v)
    /\ (UTC E ->
        (Next.http_status r = 429
         <-> exists v, x = Some (JStr v)
                       /\ phoneRegex_test v = true
                       /\ prior_attempt w Kind.phone v))
    /\ (Next.http_status r = 400 \/ Next.http_status r = 429 -> w' = w).
Proof.
  intros Hb Hp.
  destruct (POST_400_429_tests request w b x Hb Hp)
    as (r & w' & Hrun & H400 & H429 & Hsame).
  exists r, w'. split; [exact Hrun|]. split; [exact H400|].
  split; [exact H429|]. split; [|exact Hsame].
  intros Hutc. rewrite H429.
  split; intros (v & Hx & Hre & Hlim); exists v;
    (split; [exact Hx|]; split; [exact Hre|]);
    now apply (rate_limited_UTC E w Kind.phone v Hutc).
Qed.

End Route.

Lemma POST_400_and_429_witness :
  exists r w',
    POST answering (phone_request (js "abc")) world0 = (Returned r, w')
    /\ (Next.http_status r = 400
        <-> forall v, Some (JStr (js "abc")) = Some (JStr v) ->
                      phoneRegex_test v = false)
    /\ (Next.http_status r = 429
        <-> exists v, Some (JStr (js "abc")) = Some (JStr v)
                      /\ phoneRegex_test v = true
                      /\ rate_limited answering world0 Kind.phone v)
    /\ (UTC answering ->
        (Next.http_status r = 429
         <-> exists v, Some (JStr (js "abc")) = Some (JStr v)
                       /\ phoneRegex_test v = true
                       /\ prior_attempt world0 Kind.phone v))
    /\ (Next.http_status r = 400 \/ Next.http_status r = 429 -> w' = world0).
Proof.
  apply (POST_400_and_429 answering (phone_request (js "abc")) world0
           (JObj [("phone"%string, JStr (js "abc"))])
           (Some (JStr (js "abc")))); reflexivity.
Defined.

Section Records.

Context (E : env).


(** X17. In a table whose ids are bounded by the counter, a request
    changes no row that was there: the rows before are rows after, the
    table stays so bounded, and it has one row more exactly when the
    answer is a 200 (and as many as before otherwise). *)
Theorem POST_keeps_the_records request w :
  well_keyed (db w) ->
  exists r w',
    POST E request w = (Returned r, w')
    /\ rows (db w) ⊆ rows (db w')
    /\ well_keyed (db w')
    /\ size (rows (db w'))
       = (if Next.http_status r =? 200 then S (size (rows (db w)))
          else size (rows (db w))).
Proof.
  intros Hwk.
  destruct (POST_cases E request w)
    as [(r & w' & Hrun & He & Hdb)
       |(v & vd & w1 & q & rl & Hv & Hre & Hf & Hcall & Hsc)].
  { exists r, w'. split; [exact Hrun|]. rewrite Hdb.
    split; [reflexivity|]. split; [exact Hwk|].
    apply error_answer_not_200 in He.
    now replace (Next.http_status r =? 200) with false
      by (symmetry; now apply Z.eqb_neq). }
  destruct (POST_success E request w v vd w1 q rl Hv Hre Hf Hcall Hsc)
    as (valid0 & created & w2 & w3 & _ & _ & _ & Hrun).
  destruct (POST_success_row E request w v vd w1 q rl Hv Hre Hf Hcall Hsc)
    as (valid & row & _ & _ & Hseq & Hrow & Hother & Hid & _).
  pose proof (POST_keeps_well_keyed E request w Hwk) as Hwk'.
  rewrite Hrun in Hseq, Hrow, Hother, Hwk'. simpl in Hseq, Hrow, Hother, Hwk'.
  pose proof (well_keyed_fresh (db w) Hwk) as Hfresh.
  assert (Hrows : rows (db w3) = <[seq (db w) + 1 := row]> (rows (db w))).
  { apply map_eq. intros id.
    destruct (decide (id = seq (db w) + 1)) as [->|Hne].
    - now rewrite lookup_insert_eq.
    - rewrite lookup_insert_ne by congruence. now apply Hother. }
  eexists _, w3. split; [exact Hrun|]. simpl. rewrite Hrows.
  split; [now apply insert_subseteq|]. split; [exact Hwk'|].
  now apply map_size_insert_None.
Qed.

(** X18. The handler leaves no row undecided: when every row of the
    table is settled (verified or failed, failed exactly when its risk
    is high, with a score and a risk level of the scoring, a
    verification code, a response time, and the address and the agent of
    the request or [unknown]), so is every row after a request. *)
Theorem POST_keeps_all_settled request w :
  all_settled (db w) -> all_settled (db (snd (POST E request w))).
Proof.
  intros Hall.
  destruct (POST_cases E request w)
    as [(r & w' & Hrun & He & Hdb)
       |(v & vd & w1 & q & rl & Hv & Hre & Hf & Hcall & Hsc)].
  { rewrite Hrun. simpl. now rewrite Hdb. }
  destruct (POST_success_row E request w v vd w1 q rl Hv Hre Hf Hcall Hsc)
    as (valid & row & Hvalid & _ & Hseq & Hrow & Hother & Hid & Hty & Hva
        & Hst & Hco & Hca & Hip & Hua & Hvd & Hqs & Hrl & Hrt).
  destruct (scoring_scores vd q rl Hsc) as (Hin & valid' & Hvalid' & Hhigh).
  rewrite Hvalid in Hvalid'. injection Hvalid' as <-.
  intros id r0 Hr0.
  destruct (decide (id = seq (db w) + 1)) as [->|Hne].
  2:{ rewrite (Hother id Hne) in Hr0. now apply (Hall id). }
  rewrite Hrow in Hr0. injection Hr0 as <-.
  unfold settled. rewrite Hst, Hco, Hip, Hua, Hqs, Hrl, Hrt.
  split; [destruct (truthy valid); discriminate|].
  split.
  { destruct (truthy valid); split; intros H; try discriminate.
    - injection H as ->. destruct Hhigh as [Hhigh _].
      now specialize (Hhigh eq_refl).
    - f_equal. now apply Hhigh.
    - reflexivity. }
  split; [now exists q, rl|].
  split; [now eexists|]. split; [now eexists|].
  split; eexists; (split; [reflexivity|]);
    apply or_string_nonempty; discriminate.
Qed.

End Records.


Lemma POST_keeps_the_records_witness :
  well_keyed (db world1)
  /\ exists r w',
      POST outage (phone_request tabbed) world1 = (Returned r, w')
      /\ rows (db world1) ⊆ rows (db w')
      /\ well_keyed (db w')
      /\ size (rows (db w'))
         = (if Next.http_status r =? 200 then S (size (rows (db world1)))
            else size (rows (db world1))).
Proof.
  split; [exact well_keyed_world1|].
  apply (POST_keeps_the_records outage (phone_request tabbed) world1).
  exact well_keyed_world1.
Defined.

Lemma all_settled_empty : all_settled empty_store.
Proof. intros id r H. simpl in H. rewrite lookup_empty in H. discriminate. Qed.

Lemma POST_keeps_all_settled_witness :
  all_settled (db world0) /\ all_settled (db world1).
Proof.
  split; [exact all_settled_empty|].
  apply (POST_keeps_all_settled answering (phone_request a_phone) world0).
  exact all_settled_empty.
Defined.

(** The scoring throws on [null] alone. *)
Lemma scoring_Thrown validationData :
  (exists e, scoring validationData = Thrown e) <-> validationData = JNull.
Proof.
  split.
  - intros (e & He). unfold scoring in He.
    destruct validationData; simpl in He; try discriminate; try reflexivity.
    destruct (negb _); [discriminate|].
    repeat (destruct (is_string _ _) || destruct (_ || _)); discriminate.
  - intros ->. now eexists.
Qed.

Section Accepted_requests.

Context (E : env).

(** X15. For a request the route accepts (a value that passes its
    pattern and its test of the rate limit), the status tells how the
    external call ended: 502 exactly when [validatePhone] threw, 500 exactly when
    it returned [null] (the service answered 200 with the body [null]),
    and 200 exactly when it returned anything else. *)
Theorem POST_status_of_accepted request w v :
  value_of request = Some v ->
  phoneRegex_test v = true ->
  ~ rate_limited E w Kind.phone v ->
  exists r w',
    POST E request w = (Returned r, w')
    /\ (Next.http_status r = 502
        <-> exists e w1, validatePhone E v w = (Thrown e, w1))
    /\ (Next.http_status r = 500
        <-> exists w1, validatePhone E v w = (Returned JNull, w1))
    /\ (Next.http_status r = 200
        <-> exists validationData w1,
              validatePhone E v w = (Returned validationData, w1)
              /\ validationData <> JNull).
Proof.
  intros Hv Hre Hf.
  destruct (validatePhone E v w) as [[vd|e] w1] eqn:Hcall.
  2:{ destruct (POST_external_failure E request w v e w1 Hv Hre Hf Hcall)
        as (r & Hrun & Hr).
      apply is_error_status in Hr.
      exists r, w1. split; [exact Hrun|]. rewrite Hr.
      split; [split; [intros _; now exists e, w1|reflexivity]|].
      split; (split; [discriminate|]).
      - intros (? & [=]).
      - intros (? & ? & [=] & _). }
  destruct (scoring vd) as [[q rl]|e] eqn:Hsc.
  2:{ destruct (POST_scoring_failure E request w v vd w1 e Hv Hre Hf Hcall Hsc)
        as (r & Hrun & Hr).
      apply is_error_status in Hr.
      assert (Hnull : vd = JNull) by (apply scoring_Thrown; now exists e).
      exists r, w1. split; [exact Hrun|]. rewrite Hr.
      split; [split; [discriminate|intros (? & ? & [=])]|].
      split; [split; [intros _; exists w1; now rewrite Hnull|reflexivity]|].
      split; [discriminate|].
      intros (? & ? & [= <- _] & Hne). now elim Hne. }
  assert (Hnn : vd <> JNull).
  { intros Hnull. apply scoring_Thrown in Hnull. destruct Hnull as (e & He).
    rewrite Hsc in He. discriminate. }
  destruct (POST_success E request w v vd w1 q rl Hv Hre Hf Hcall Hsc)
    as (valid & created & w2 & w3 & _ & _ & _ & Hrun).
  eexists _, w3. split; [exact Hrun|]. simpl.
  split; [split; [discriminate|intros (? & ? & [=])]|].
  split; [split; [discriminate|]|].
  - intros (? & [= Hnull _]). now elim Hnn.
  - split; [|reflexivity]. intros _. now exists vd, w1.
Qed.


End Accepted_requests.

Lemma POST_status_of_accepted_witness :
  exists r w',
    POST answering (phone_request a_phone) world0 = (Returned r, w')
    /\ (Next.http_status r = 502
        <-> exists e w1, validatePhone answering a_phone world0 = (Thrown e, w1))
    /\ (Next.http_status r = 500
        <-> exists w1, validatePhone answering a_phone world0 = (Returned JNull, w1))
    /\ (Next.http_status r = 200
        <-> exists validationData w1,
              validatePhone answering a_phone world0
              = (Returned validationData, w1)
              /\ validationData <> JNull).
Proof.
  apply (POST_status_of_accepted answering (phone_request a_phone) world0 a_phone).
  - reflexivity.
  - reflexivity.
  - exact (world0_not_rate_limited answering a_phone).
Defined.


(** ** The page and the route *)


